(** * pyannote.metrics.matcher: label matching by optimal assignment

    A shallow embedding of [pyannote/metrics/matcher.py].  The module
    scores a hypothesis label sequence against a reference label sequence:
    it fills a square boolean match matrix, asks a minimum-cost assignment
    solver (the [munkres] package) for a one-to-one mapping, and then
    classifies every pair of the mapping as correct, confusion, missed
    detection or false alarm. *)

From stdpp Require Import gmultiset.
From stdpp Require Import base numbers option list gmap strings.

(** ** Python exceptions and fallible computations *)

(** The built-in exceptions the module can meet, the solver's own, and any
    other exception class by its name. *)
Inductive exn :=
| TypeError
| ValueError
| IndexError
| KeyError
| SolverError
| OtherError (name : string).

Inductive result (A : Type) :=
| Ok (a : A)
| Raise (e : exn).
Arguments Ok {A} a.
Arguments Raise {A} e.

Global Instance result_ret : MRet result := λ A a, Ok a.
Global Instance result_bind : MBind result := λ A B k x,
  match x with
  | Ok a => k a
  | Raise e => Raise e
  end.

(** [for x in l: s = f(s, x)], stopping at the first exception. *)
Fixpoint foldM {S A} (f : S → A → result S) (s : S) (l : list A) : result S :=
  match l with
  | [] => Ok s
  | x :: l => s' ← f s x; foldM f s' l
  end.

(** Python's [enumerate]. *)
Definition enumerate {A} (l : list A) : list (nat * A) := imap pair l.

(** ** Module constants *)

Definition MATCH_CORRECT : string := "correct"%string.
Definition MATCH_CONFUSION : string := "confusion"%string.
Definition MATCH_MISSED_DETECTION : string := "missed detection"%string.
Definition MATCH_FALSE_ALARM : string := "false alarm"%string.
Definition MATCH_TOTAL : string := "total"%string.

(** ** Labels *)

(** Modelled from the spec: [pyannote.core.Unknown] is imported, not defined,
    by the module.  A label is either a concrete identity token (a name) or
    an Unknown placeholder carrying its own distinguishing data (an
    instance number). *)
Inductive label :=
| Name (s : string)
| Unknown (ID : nat).

Global Instance label_eq_dec : EqDecision label.
Proof. solve_decision. Defined.

(** [isinstance(x, Unknown)] *)
Definition isinstance_Unknown (x : label) : bool :=
  match x with
  | Unknown _ => true
  | Name _ => false
  end.

(** Python's [==] on labels: names compare by value, two placeholders by their
    distinguishing data, a name never equals a placeholder. *)
Definition py_eq (a b : label) : bool :=
  match a, b with
  | Name s, Name t => bool_decide (s = t)
  | Unknown i, Unknown j => bool_decide (i = j)
  | _, _ => false
  end.

(** ** The two [match] methods *)

Module LabelMatcher.
(** [LabelMatcher.match]: two IDs match if they are equal to each other. *)
Definition match_ (rlabel hlabel : label) : bool := py_eq rlabel hlabel.
End LabelMatcher.

Module UnknownSupportMixin.
(** [UnknownSupportMixin.match] *)
Definition match_ (rlabel hlabel : label) : bool :=
    if isinstance_Unknown rlabel && isinstance_Unknown hlabel then true
    else py_eq rlabel hlabel.
End UnknownSupportMixin.

Module LabelMatcherWithUnknownSupport.
(** The mixin comes first in the method resolution order. *)
Definition match_ := UnknownSupportMixin.match_.
End LabelMatcherWithUnknownSupport.

(** ** Arguments of [__call__] as Python objects *)

(** [__call__] applies exactly two operations to each argument: [len] and
    [list].  An argument is described by what each of them does to it.
    [py_len] is the outcome of [len(o)]: the length, or the exception that
    [len] raises ([TypeError] for an object without [__len__] such as a
    generator or a number, [ValueError] when [__len__] returns a negative
    number, or whatever [__len__] itself raises).  [py_list] is the outcome
    of [list(o)]: the labels in iteration order, or the exception that
    iterating raises ([TypeError] for an object that is not iterable, or
    whatever [__iter__] or [__next__] raise).  An object on which [list]
    never returns (an unbounded iterator that nevertheless has a length) has
    no such outcome and is not described. *)
Record pyobj := PyObj {
  py_len : result nat;
  py_list : result (list label)
}.

Definition len (o : pyobj) : result nat := py_len o.

Definition list_ (o : pyobj) : result (list label) := py_list o.

(** A Python list (or tuple) of labels. *)
Definition of_list (l : list label) : pyobj :=
  {| py_len := Ok (length l); py_list := Ok l |}.


(** ** Matrices *)

Definition getitem {A} (l : list A) (i : nat) : result A :=
  match l !! i with
  | Some x => Ok x
  | None => Raise IndexError
  end.

(** [np.zeros((N, N), dtype=bool)] *)
Definition zeros (N : nat) : list (list bool) := replicate N (replicate N false).

(** [M[r, h] = v] *)
Definition setitem2 {A} (M : list (list A)) (r h : nat) (v : A) : result (list (list A)) :=
  row ← getitem M r;
  if decide (h < length row) then Ok (<[r := <[h := v]> row]> M)
  else Raise IndexError.

(** [M[r, h]] *)
Definition getitem2 {A} (M : list (list A)) (r h : nat) : result A :=
  row ← getitem M r; getitem row h.

(** [1 - match]: an integer matrix, 0 where labels match and 1 elsewhere. *)
Definition one_minus (M : list (list bool)) : list (list Z) :=
  fmap (M := list) (fmap (M := list) (λ b : bool, (1 - Z.b2z b)%Z)) M.

(** ** Counts and details *)

Inductive detail :=
| Single (x : label)
| Pair (r h : label).

(** [d[k] += n] *)
Definition iadd (k : string) (n : nat) (d : gmap string nat) : result (gmap string nat) :=
  match d !! k with
  | Some v => Ok (<[k := v + n]> d)
  | None => Raise KeyError
  end.

(** [d[k].append(x)] *)
Definition append (k : string) (x : detail) (d : gmap string (list detail))
  : result (gmap string (list detail)) :=
  match d !! k with
  | Some l => Ok (<[k := l ++ [x]]> d)
  | None => Raise KeyError
  end.

Definition counts0 : gmap string nat :=
  {[ MATCH_CORRECT := 0; MATCH_CONFUSION := 0; MATCH_MISSED_DETECTION := 0;
     MATCH_FALSE_ALARM := 0; MATCH_TOTAL := 0 ]}.

Definition details0 : gmap string (list detail) :=
  {[ MATCH_CORRECT := []; MATCH_CONFUSION := []; MATCH_MISSED_DETECTION := [];
     MATCH_FALSE_ALARM := [] ]}.

(** ** The assignment engine *)

Section Engine.
(** [self.match], resolved by the class of the matcher. *)
Variable self_match : label → label → bool.
(** [self._munkres.compute]: the solver of the [munkres] package. *)
Variable compute : list (list Z) → result (list (nat * nat)).

(** The two nested loops that fill the match matrix. *)
Definition fill_row (r : nat) (rlabel : label) (hlabels : list label)
      (M : list (list bool)) : result (list (list bool)) :=
    foldM (λ M '(h, hlabel), setitem2 M r h (self_match rlabel hlabel))
          M (enumerate hlabels).

Definition fill (rlabels hlabels : list label) (M : list (list bool))
    : result (list (list bool)) :=
    foldM (λ M '(r, rlabel), fill_row r rlabel hlabels M) M (enumerate rlabels).

(** The body of the loop on matches. *)
Definition classify (NR NH : nat) (rlabels hlabels : list label)
      (M : list (list bool))
      (st : gmap string nat * gmap string (list detail)) (p : nat * nat)
    : result (gmap string nat * gmap string (list detail)) :=
    let '(counts, details) := st in
    let '(r, h) := p in
    if decide (NR ≤ r) then
      counts ← iadd MATCH_FALSE_ALARM 1 counts;
      x ← getitem hlabels h;
      details ← append MATCH_FALSE_ALARM (Single x) details;
      Ok (counts, details)
    else if decide (NH ≤ h) then
      counts ← iadd MATCH_MISSED_DETECTION 1 counts;
      x ← getitem rlabels r;
      details ← append MATCH_MISSED_DETECTION (Single x) details;
      Ok (counts, details)
    else
      b ← getitem2 M r h;
      if b : bool then
        counts ← iadd MATCH_CORRECT 1 counts;
        x ← getitem rlabels r;
        y ← getitem hlabels h;
        details ← append MATCH_CORRECT (Pair x y) details;
        Ok (counts, details)
      else
        counts ← iadd MATCH_CONFUSION 1 counts;
        x ← getitem rlabels r;
        y ← getitem hlabels h;
        details ← append MATCH_CONFUSION (Pair x y) details;
        Ok (counts, details).

Definition __call__ (rlabels hlabels : pyobj)
    : result (gmap string nat * gmap string (list detail)) :=
    let counts := counts0 in
    let details := details0 in
    NR ← len rlabels;
    NH ← len hlabels;
    let N := NR `max` NH in
    if decide (N = 0) then Ok (counts, details)
    else
      rlabels ← list_ rlabels;
      hlabels ← list_ hlabels;
      M ← fill rlabels hlabels (zeros N);
      mapping ← compute (one_minus M);
      '(counts, details) ← foldM (classify NR NH rlabels hlabels M)
                                  (counts, details) mapping;
      counts ← iadd MATCH_TOTAL NR counts;
      Ok (counts, details).
End Engine.

(** ** The contract of the assignment solver *)

(** The [munkres] package is a dependency, not part of the module.  Its
    documented contract: [compute] returns the (row, column) index pairs of a
    lowest-cost one-to-one pairing of the rows and columns of a square cost
    matrix. *)

Definition square {A} (n : nat) (C : list (list A)) : Prop :=
  length C = n ∧ Forall (λ row, length row = n) C.

(** A one-to-one pairing of the row indices [0..n) with the column indices
    [0..n): every row occurs once and every column occurs once. *)
Definition assignment (n : nat) (m : list (nat * nat)) : Prop :=
  m.*1 ≡ₚ seq 0 n ∧ m.*2 ≡ₚ seq 0 n.

Definition entry (C : list (list Z)) (p : nat * nat) : Z :=
  default 0%Z (C !! p.1 ≫= (.!! p.2)).

Definition cost (C : list (list Z)) (m : list (nat * nat)) : Z :=
  foldr (λ p acc, (entry C p + acc)%Z) 0%Z m.

Definition optimal (n : nat) (C : list (list Z)) (m : list (nat * nat)) : Prop :=
  assignment n m ∧ ∀ m', assignment n m' → (cost C m ≤ cost C m')%Z.

Definition solver_contract (compute : list (list Z) → result (list (nat * nat))) : Prop :=
  ∀ n C, 0 < n → square n C → ∃ m, compute C = Ok m ∧ optimal n C m.

(** The cheaper of two pairings, the first on a tie. *)
Definition cheaper (C : list (list Z)) (best m : list (nat * nat)) : list (nat * nat) :=
  if decide (cost C m < cost C best)%Z then m else best.

(** All pairings of [0..n) with [0..n), rows in increasing order. *)
Definition candidates (n : nat) : list (list (nat * nat)) :=
  zip (seq 0 n) <$> permutations (seq 0 n).

Definition search (C : list (list Z)) (cands : list (list (nat * nat)))
  : result (list (nat * nat)) :=
  match cands with
  | [] => Raise SolverError
  | m :: ms => Ok (foldl (cheaper C) m ms)
  end.

(** A reference solver: exhaustive search over all permutations of the
    columns.  It shows that the contract can be met, and serves as the
    brute-force oracle for small matrices. *)
Definition brute_force (C : list (list Z)) : result (list (nat * nat)) :=
  search C (candidates (length C)).

(** The same search in the opposite order: among several lowest-cost
    pairings it keeps another one. *)
Definition brute_force_rev (C : list (list Z)) : result (list (nat * nat)) :=
  search C (reverse (candidates (length C))).

(** ** Specification-side definitions *)

(** The square matrix whose entry at row [r], column [h] is [f r h]. *)
Definition mat {A} (N : nat) (f : nat → nat → A) : list (list A) :=
  (λ r, f r <$> seq 0 N) <$> seq 0 N.

(** The four outcome kinds and their dictionary keys. *)
Inductive kind := Correct | Confusion | MissedDetection | FalseAlarm.

Global Instance kind_eq_dec : EqDecision kind.
Proof. solve_decision. Defined.

Definition key (k : kind) : string :=
  match k with
  | Correct => MATCH_CORRECT
  | Confusion => MATCH_CONFUSION
  | MissedDetection => MATCH_MISSED_DETECTION
  | FalseAlarm => MATCH_FALSE_ALARM
  end.

(** The precedence of the classification, in the words of the
    specification: padding row, else padding column, else matrix entry. *)
Definition kind_of (NR NH : nat) (M : list (list bool)) (p : nat * nat) : kind :=
  if decide (NR ≤ p.1) then FalseAlarm
  else if decide (NH ≤ p.2) then MissedDetection
  else if decide (M !! p.1 ≫= (.!! p.2) = Some true) then Correct
  else Confusion.

(** The pairs of a mapping that fall into kind [k], in mapping order. *)
Definition of_kind (NR NH : nat) (M : list (list bool)) (k : kind)
    (m : list (nat * nat)) : list (nat * nat) :=
  filter (λ p, kind_of NR NH M p = k) m.

Global Instance label_inhabited : Inhabited label := populate (Name "").

(** The detail recorded for a pair of kind [k]. *)
Definition detail_of (rlabels hlabels : list label) (k : kind) (p : nat * nat) : detail :=
  match k with
  | FalseAlarm => Single (hlabels !!! p.2)
  | MissedDetection => Single (rlabels !!! p.1)
  | Correct | Confusion => Pair (rlabels !!! p.1) (hlabels !!! p.2)
  end.

(** The same detail, read from the sequences by partial lookups: defined
    only when the indices it needs are inside the sequences. *)
Definition detail_at (rlabels hlabels : list label) (k : kind) (p : nat * nat)
  : option detail :=
  match k with
  | FalseAlarm => Single <$> hlabels !! p.2
  | MissedDetection => Single <$> rlabels !! p.1
  | Correct | Confusion =>
      match rlabels !! p.1, hlabels !! p.2 with
      | Some x, Some y => Some (Pair x y)
      | _, _ => None
      end
  end.

Definition counts_of (co cf md fa tot : nat) : gmap string nat :=
  {[ MATCH_CORRECT := co; MATCH_CONFUSION := cf; MATCH_MISSED_DETECTION := md;
     MATCH_FALSE_ALARM := fa; MATCH_TOTAL := tot ]}.

Definition details_of (co cf md fa : list detail) : gmap string (list detail) :=
  {[ MATCH_CORRECT := co; MATCH_CONFUSION := cf; MATCH_MISSED_DETECTION := md;
     MATCH_FALSE_ALARM := fa ]}.

Section Spec.
Variable self_match : label → label → bool.

(** [match(reference[r], hypothesis[h])] for [r < NR] and [h < NH], false on
      the padding. *)
Definition match_at (rlabels hlabels : list label) (r h : nat) : bool :=
    match rlabels !! r, hlabels !! h with
    | Some a, Some b => self_match a b
    | _, _ => false
    end.

Definition match_matrix (N : nat) (rlabels hlabels : list label) : list (list bool) :=
    mat N (match_at rlabels hlabels).

(** The number of matching pairs of a pairing. *)
Definition score (rlabels hlabels : list label) (m : list (nat * nat)) : nat :=
    length (filter (λ p, match_at rlabels hlabels p.1 p.2 = true) m).
End Spec.

(** The dictionaries after the loop on matches has consumed the mapping [m]:
    one count and one detail per pair, filed under the kind of the pair. *)
Definition tally (NR NH : nat) (M : list (list bool)) (m : list (nat * nat))
    (tot : nat) : gmap string nat :=
  counts_of (length (of_kind NR NH M Correct m))
            (length (of_kind NR NH M Confusion m))
            (length (of_kind NR NH M MissedDetection m))
            (length (of_kind NR NH M FalseAlarm m)) tot.

Definition listing (NR NH : nat) (M : list (list bool))
    (rlabels hlabels : list label) (m : list (nat * nat)) : gmap string (list detail) :=
  details_of (detail_of rlabels hlabels Correct <$> of_kind NR NH M Correct m)
             (detail_of rlabels hlabels Confusion <$> of_kind NR NH M Confusion m)
             (detail_of rlabels hlabels MissedDetection <$> of_kind NR NH M MissedDetection m)
             (detail_of rlabels hlabels FalseAlarm <$> of_kind NR NH M FalseAlarm m).

(** The reference label and the hypothesis label a detail mentions.  A
    missed detection holds a reference label only, a false alarm a
    hypothesis label only. *)
Definition reference_of (d : detail) : label :=
  match d with
  | Single x => x
  | Pair x _ => x
  end.

Definition hypothesis_of (d : detail) : label :=
  match d with
  | Single y => y
  | Pair _ y => y
  end.

(** Labels can be enumerated, so sequences of labels have multisets. *)
Global Instance label_countable : Countable label.
Proof.
  refine (inj_countable'
            (λ a, match a with Name s => inl s | Unknown i => inr i end)
            (λ x, match x with inl s => Name s | inr i => Unknown i end) _).
  by intros [].
Defined.

(** The number of labels two sequences have in common, repetitions counted:
    the size of the intersection of their multisets. *)
Definition common (rlabels hlabels : list label) : nat :=
  size (list_to_set_disj rlabels ∩ list_to_set_disj hlabels : gmultiset label).

(** A label without the instance number of a placeholder. *)
Definition erase_id (a : label) : label :=
  match a with
  | Name s => Name s
  | Unknown _ => Unknown 0
  end.

(** * Proofs *)

(** ** Loops *)

Lemma foldM_snoc {S A} (f : S → A → result S) s l x :
  foldM f s (l ++ [x]) = s' ← foldM f s l; f s' x.
Proof.
  revert s. induction l as [|y l IH]; intros s; simpl.
  - by destruct (f s x).
  - destruct (f s y) as [s'|e]; simpl; [apply IH | done].
Qed.

Lemma enumerate_snoc {A} (l : list A) x :
  enumerate (l ++ [x]) = enumerate l ++ [(length l, x)].
Proof.
  unfold enumerate. rewrite imap_app. simpl.
  by rewrite Nat.add_0_r.
Qed.

(** ** Matrices *)

Lemma mat_lookup {A} N (f : nat → nat → A) r :
  r < N → mat N f !! r = Some (f r <$> seq 0 N).
Proof.
  intros Hr. unfold mat. rewrite list_lookup_fmap.
  by rewrite lookup_seq_lt.
Qed.

Lemma mat_lookup2 {A} N (f : nat → nat → A) r h :
  r < N → h < N → mat N f !! r ≫= (.!! h) = Some (f r h).
Proof.
  intros Hr Hh. rewrite mat_lookup by done. simpl.
  rewrite list_lookup_fmap. by rewrite lookup_seq_lt.
Qed.

Lemma mat_ext {A} N (f g : nat → nat → A) :
  (∀ r h, r < N → h < N → f r h = g r h) → mat N f = mat N g.
Proof.
  intros Hfg. unfold mat. apply list_fmap_ext.
  intros i r [-> Hi]%lookup_seq. apply list_fmap_ext.
  intros j h [-> Hj]%lookup_seq. apply Hfg; lia.
Qed.

Lemma mat_square {A} N (f : nat → nat → A) : square N (mat N f).
Proof.
  split.
  - unfold mat. by rewrite length_fmap, length_seq.
  - unfold mat. rewrite Forall_fmap. apply Forall_forall.
    intros r _. simpl. by rewrite length_fmap, length_seq.
Qed.

Lemma zeros_mat N : zeros N = mat N (λ _ _, false).
Proof.
  unfold zeros, mat. apply list_eq. intros i.
  destruct (decide (i < N)) as [Hi|Hi].
  - rewrite lookup_replicate_2 by done.
    rewrite list_lookup_fmap, lookup_seq_lt by done. simpl. f_equal.
    apply list_eq. intros j. destruct (decide (j < N)) as [Hj|Hj].
    + rewrite lookup_replicate_2 by done.
      by rewrite list_lookup_fmap, lookup_seq_lt.
    + rewrite (proj1 (lookup_replicate_None _ _ _)) by lia.
      rewrite list_lookup_fmap, lookup_seq_ge by lia. done.
  - rewrite (proj1 (lookup_replicate_None _ _ _)) by lia.
    rewrite list_lookup_fmap, lookup_seq_ge by lia. done.
Qed.

Lemma setitem2_mat {A} N (f : nat → nat → A) r h v :
  r < N → h < N →
  setitem2 (mat N f) r h v
  = Ok (mat N (λ r' h', if decide (r' = r ∧ h' = h) then v else f r' h')).
Proof.
  intros Hr Hh. unfold setitem2, getitem.
  rewrite mat_lookup by done. simpl.
  rewrite length_fmap, length_seq. rewrite decide_True by done. f_equal.
  apply list_eq. intros i. destruct (decide (i = r)) as [->|Hi].
  - rewrite list_lookup_insert_eq
      by (destruct (mat_square N f) as [-> _]; done).
    rewrite mat_lookup by done. f_equal.
    apply list_eq. intros j. destruct (decide (j = h)) as [->|Hj].
    + rewrite list_lookup_insert_eq by (by rewrite length_fmap, length_seq).
      rewrite list_lookup_fmap, lookup_seq_lt by done. simpl.
      by rewrite decide_True.
    + rewrite list_lookup_insert_ne by done.
      rewrite !list_lookup_fmap. destruct (seq 0 N !! j) as [j'|] eqn:Hj'; [|done].
      apply lookup_seq in Hj' as [-> _]. simpl.
      rewrite decide_False by (by intros [? ?]). done.
  - rewrite list_lookup_insert_ne by done.
    unfold mat. rewrite !list_lookup_fmap.
    destruct (seq 0 N !! i) as [i'|] eqn:Hi'; [|done].
    apply lookup_seq in Hi' as [-> _]. simpl. f_equal.
    apply list_fmap_ext. intros ? ? _. rewrite decide_False by (by intros [? ?]). done.
Qed.

(** ** Matrix construction *)

Section Fill.
Variable self_match : label → label → bool.

Lemma fill_row_mat N f r rlabel hlabels :
    r < N → length hlabels ≤ N →
    fill_row self_match r rlabel hlabels (mat N f)
    = Ok (mat N (λ r' h',
            if decide (r' = r) then
              match hlabels !! h' with
              | Some b => self_match rlabel b
              | None => f r' h'
              end
            else f r' h')).
Proof.
    intros Hr. unfold fill_row.
    induction hlabels as [|hlabel hlabels IH] using rev_ind; intros Hlen.
    - simpl. f_equal. apply mat_ext. intros r' h' _ _. by case_decide.
    - rewrite length_app in Hlen. simpl in Hlen.
      rewrite enumerate_snoc, foldM_snoc, IH by lia. simpl.
      rewrite setitem2_mat by lia. f_equal.
      apply mat_ext. intros r' h' _ _.
      destruct (decide (r' = r)) as [->|Hne].
      + destruct (decide (h' = length hlabels)) as [->|Hh].
        * rewrite decide_True by done.
          by rewrite lookup_app_r, Nat.sub_diag by lia.
        * rewrite decide_False by (by intros [? ?]).
          destruct (decide (h' < length hlabels)).
          -- by rewrite lookup_app_l by lia.
          -- rewrite !(proj2 (lookup_ge_None _ _)); [done| |lia].
             rewrite length_app. simpl. lia.
      + by rewrite decide_False by (by intros [? ?]).
Qed.

Lemma fill_mat N f rlabels hlabels :
    length rlabels ≤ N → length hlabels ≤ N →
    fill self_match rlabels hlabels (mat N f)
    = Ok (mat N (λ r h,
            match rlabels !! r, hlabels !! h with
            | Some a, Some b => self_match a b
            | _, _ => f r h
            end)).
Proof.
    intros Hlen Hh. unfold fill. revert Hlen.
    induction rlabels as [|rlabel rlabels IH] using rev_ind; intros Hlen.
    - simpl. done.
    - rewrite length_app in Hlen. simpl in Hlen.
      rewrite enumerate_snoc, foldM_snoc, IH by lia. simpl.
      rewrite fill_row_mat by lia. f_equal.
      apply mat_ext. intros r h _ _.
      destruct (decide (r = length rlabels)) as [->|Hr].
      + rewrite lookup_app_r, Nat.sub_diag by lia. simpl.
        rewrite (proj2 (lookup_ge_None rlabels _)) by lia.
        by destruct (hlabels !! h).
      + destruct (decide (r < length rlabels)).
        * by rewrite lookup_app_l by lia.
        * rewrite !(proj2 (lookup_ge_None _ _)); [done| |lia].
          rewrite length_app. simpl. lia.
Qed.

(** The matrix built by the two loops is the match matrix of the
      specification: the predicate inside both sequences, false on padding. *)
Lemma fill_zeros N rlabels hlabels :
    length rlabels ≤ N → length hlabels ≤ N →
    fill self_match rlabels hlabels (zeros N)
    = Ok (match_matrix self_match N rlabels hlabels).
Proof.
    intros Hr Hh. by rewrite zeros_mat, fill_mat.
Qed.
End Fill.

(** ** Dictionary updates *)

Ltac dict_eq :=
  apply map_eq; intros ?;
  rewrite ?lookup_insert, ?lookup_singleton;
  repeat case_decide; simplify_eq; done.

Ltac dict_update :=
  unfold iadd, append, counts_of, details_of; simplify_map_eq; f_equal; dict_eq.

Lemma iadd_correct n co cf md fa tot :
  iadd MATCH_CORRECT n (counts_of co cf md fa tot) = Ok (counts_of (co + n) cf md fa tot).
Proof. dict_update. Qed.

Lemma iadd_confusion n co cf md fa tot :
  iadd MATCH_CONFUSION n (counts_of co cf md fa tot) = Ok (counts_of co (cf + n) md fa tot).
Proof. dict_update. Qed.

Lemma iadd_missed_detection n co cf md fa tot :
  iadd MATCH_MISSED_DETECTION n (counts_of co cf md fa tot)
  = Ok (counts_of co cf (md + n) fa tot).
Proof. dict_update. Qed.

Lemma iadd_false_alarm n co cf md fa tot :
  iadd MATCH_FALSE_ALARM n (counts_of co cf md fa tot) = Ok (counts_of co cf md (fa + n) tot).
Proof. dict_update. Qed.

Lemma iadd_total n co cf md fa tot :
  iadd MATCH_TOTAL n (counts_of co cf md fa tot) = Ok (counts_of co cf md fa (tot + n)).
Proof. dict_update. Qed.

Lemma append_correct x co cf md fa :
  append MATCH_CORRECT x (details_of co cf md fa) = Ok (details_of (co ++ [x]) cf md fa).
Proof. dict_update. Qed.

Lemma append_confusion x co cf md fa :
  append MATCH_CONFUSION x (details_of co cf md fa) = Ok (details_of co (cf ++ [x]) md fa).
Proof. dict_update. Qed.

Lemma append_missed_detection x co cf md fa :
  append MATCH_MISSED_DETECTION x (details_of co cf md fa)
  = Ok (details_of co cf (md ++ [x]) fa).
Proof. dict_update. Qed.

Lemma append_false_alarm x co cf md fa :
  append MATCH_FALSE_ALARM x (details_of co cf md fa) = Ok (details_of co cf md (fa ++ [x])).
Proof. dict_update. Qed.

Lemma counts_of_lookup co cf md fa tot k :
  counts_of co cf md fa tot !! key k
  = Some match k with
         | Correct => co | Confusion => cf | MissedDetection => md | FalseAlarm => fa
         end.
Proof. destruct k; unfold counts_of; by simplify_map_eq. Qed.

Lemma counts_of_total co cf md fa tot :
  counts_of co cf md fa tot !! MATCH_TOTAL = Some tot.
Proof. unfold counts_of; by simplify_map_eq. Qed.

Lemma details_of_lookup co cf md fa k :
  details_of co cf md fa !! key k
  = Some match k with
         | Correct => co | Confusion => cf | MissedDetection => md | FalseAlarm => fa
         end.
Proof. destruct k; unfold details_of; by simplify_map_eq. Qed.

(** ** The loop on matches *)

Lemma of_kind_snoc NR NH M k m p :
  of_kind NR NH M k (m ++ [p])
  = of_kind NR NH M k m ++ (if decide (kind_of NR NH M p = k) then [p] else []).
Proof.
  unfold of_kind. by rewrite filter_app.
Qed.

Lemma getitem_lookup_total (l : list label) i :
  i < length l → getitem l i = Ok (l !!! i).
Proof.
  intros Hi. unfold getitem.
  destruct (lookup_lt_is_Some_2 l i Hi) as [x Hx].
  rewrite Hx. by rewrite (list_lookup_total_correct _ _ _ Hx).
Qed.

Section Classify.
Variables (rlabels hlabels : list label) (N : nat) (g : nat → nat → bool).
Let NR := length rlabels.
Let NH := length hlabels.
Let M := mat N g.
Hypothesis HN : N = NR `max` NH.

Lemma classify_step pre p tot :
    p.1 < N → p.2 < N →
    classify NR NH rlabels hlabels M
      (tally NR NH M pre tot, listing NR NH M rlabels hlabels pre) p
    = Ok (tally NR NH M (pre ++ [p]) tot, listing NR NH M rlabels hlabels (pre ++ [p])).
Proof.
    destruct p as [r h]. simpl. intros Hr Hh.
    unfold tally, listing. rewrite !of_kind_snoc. unfold classify.
    destruct (decide (NR ≤ r)) as [HrNR|HrNR].
    { assert (kind_of NR NH M (r, h) = FalseAlarm) as ->
        by (unfold kind_of; simpl; by rewrite decide_True).
      rewrite iadd_false_alarm. simpl.
      rewrite getitem_lookup_total by (fold NH; lia). simpl.
      rewrite append_false_alarm. simpl.
      by rewrite !app_nil_r, length_app, fmap_app. }
    destruct (decide (NH ≤ h)) as [HhNH|HhNH].
    { assert (kind_of NR NH M (r, h) = MissedDetection) as ->
        by (unfold kind_of; simpl; by rewrite decide_False, decide_True).
      rewrite iadd_missed_detection. simpl.
      rewrite getitem_lookup_total by (fold NR; lia). simpl.
      rewrite append_missed_detection. simpl.
      by rewrite !app_nil_r, length_app, fmap_app. }
    assert (M !! r ≫= (.!! h) = Some (g r h)) as Hentry
      by (by apply mat_lookup2).
    assert (getitem2 M r h = Ok (g r h)) as ->.
    { unfold getitem2, getitem. destruct (M !! r) as [row|]; [|done].
      simpl in *. by rewrite Hentry. }
    simpl. destruct (g r h) eqn:Hg.
    - assert (kind_of NR NH M (r, h) = Correct) as ->
        by (unfold kind_of; simpl; rewrite Hentry;
            rewrite (decide_False (P := NR ≤ r)), (decide_False (P := NH ≤ h)) by done;
            done).
      rewrite iadd_correct. simpl.
      rewrite !getitem_lookup_total by (fold NR NH; lia). simpl.
      rewrite append_correct. simpl.
      by rewrite !app_nil_r, length_app, fmap_app.
    - assert (kind_of NR NH M (r, h) = Confusion) as ->.
        by (unfold kind_of; simpl; rewrite Hentry;
            rewrite (decide_False (P := NR ≤ r)), (decide_False (P := NH ≤ h)) by done;
            done).
      rewrite iadd_confusion. simpl.
      rewrite !getitem_lookup_total by (fold NR NH; lia). simpl.
      rewrite append_confusion. simpl.
      by rewrite !app_nil_r, length_app, fmap_app.
Qed.

Lemma classify_loop m tot :
    Forall (λ p, p.1 < N ∧ p.2 < N) m →
    foldM (classify NR NH rlabels hlabels M)
      (tally NR NH M [] tot, listing NR NH M rlabels hlabels []) m
    = Ok (tally NR NH M m tot, listing NR NH M rlabels hlabels m).
Proof.
    induction m as [|p m IH] using rev_ind; intros Hm; [done|].
    apply Forall_app in Hm as [Hm Hp]. apply Forall_singleton in Hp as [? ?].
    rewrite foldM_snoc, IH by done. simpl.
    by apply classify_step.
Qed.
End Classify.

(** ** Counting over one-to-one pairings *)

Lemma filter_ext_Forall {X} (P1 P2 : X → Prop)
    `{!∀ x, Decision (P1 x), !∀ x, Decision (P2 x)} (l : list X) :
  Forall (λ x, P1 x ↔ P2 x) l → filter P1 l = filter P2 l.
Proof.
  induction 1 as [|x l Hx Hl IH]; [done|].
  rewrite !filter_cons, IH. apply decide_ext. done.
Qed.

Lemma filter_none {X} (P : X → Prop) `{!∀ x, Decision (P x)} (l : list X) :
  Forall (λ x, ¬ P x) l → filter P l = [].
Proof.
  induction 1 as [|x l Hx Hl IH]; [done|].
  by rewrite filter_cons_False.
Qed.

Lemma length_filter_fst (Q : nat → Prop) `{!∀ x, Decision (Q x)} (m : list (nat * nat)) :
  length (filter (λ p, Q p.1) m) = length (filter Q m.*1).
Proof.
  induction m as [|p m IH]; [done|].
  rewrite fmap_cons, !filter_cons. case_decide; simpl; by rewrite IH.
Qed.

Lemma length_filter_snd (Q : nat → Prop) `{!∀ x, Decision (Q x)} (m : list (nat * nat)) :
  length (filter (λ p, Q p.2) m) = length (filter Q m.*2).
Proof.
  induction m as [|p m IH]; [done|].
  rewrite fmap_cons, !filter_cons. case_decide; simpl; by rewrite IH.
Qed.

Lemma length_filter_seq_ge n k :
  length (filter (λ i, k ≤ i) (seq 0 n)) = n - k.
Proof.
  induction n as [|n IH]; [done|].
  rewrite seq_S, filter_app, length_app, IH. simpl.
  rewrite filter_cons, filter_nil. case_decide; simpl; lia.
Qed.

Lemma assignment_length n m : assignment n m → length m = n.
Proof.
  intros [Hrows _]. rewrite <-(length_fmap fst m), Hrows. apply length_seq.
Qed.

Lemma assignment_bounds n m :
  assignment n m → Forall (λ p, p.1 < n ∧ p.2 < n) m.
Proof.
  intros [Hrows Hcols]. apply Forall_forall. intros p Hp. split.
  - assert (p.1 ∈ seq 0 n) as Hin
      by (rewrite <-Hrows; by apply list_elem_of_fmap_2).
    apply elem_of_seq in Hin. lia.
  - assert (p.2 ∈ seq 0 n) as Hin
      by (rewrite <-Hcols; by apply list_elem_of_fmap_2).
    apply elem_of_seq in Hin. lia.
Qed.

Lemma assignment_nil : assignment 0 [].
Proof. by split. Qed.

(** Rows at or beyond [k] in a pairing of [0..n): always [n - k] of them. *)
Lemma assignment_rows_ge n k m :
  assignment n m → length (filter (λ p, k ≤ p.1) m) = n - k.
Proof.
  intros [Hrows _].
  rewrite (length_filter_fst (λ i, k ≤ i)), Hrows. apply length_filter_seq_ge.
Qed.

Lemma assignment_cols_ge n k m :
  assignment n m → length (filter (λ p, k ≤ p.2) m) = n - k.
Proof.
  intros [_ Hcols].
  rewrite (length_filter_snd (λ i, k ≤ i)), Hcols. apply length_filter_seq_ge.
Qed.

Section Counting.
Variables (NR NH : nat) (M : list (list bool)).

Lemma of_kind_partition m :
    length (of_kind NR NH M Correct m) + length (of_kind NR NH M Confusion m)
    + length (of_kind NR NH M MissedDetection m)
    + length (of_kind NR NH M FalseAlarm m) = length m.
Proof.
    unfold of_kind. induction m as [|p m IH]; [done|].
    rewrite !filter_cons. destruct (kind_of NR NH M p); simpl; lia.
Qed.

Lemma false_alarm_count n m :
    assignment n m → length (of_kind NR NH M FalseAlarm m) = n - NR.
Proof.
    intros Hm. rewrite <-(assignment_rows_ge n NR m Hm). unfold of_kind.
    f_equal. apply list_filter_iff. intros p. unfold kind_of.
    repeat case_decide; naive_solver.
Qed.

Lemma missed_detection_count m :
    assignment (NR `max` NH) m →
    length (of_kind NR NH M MissedDetection m) = NR - NH.
Proof.
    intros Hm. pose proof (assignment_bounds _ _ Hm) as Hb.
    destruct (decide (NR ≤ NH)) as [Hle|Hgt].
    - replace (NR - NH) with 0 by lia.
      unfold of_kind. rewrite filter_none; [done|].
      eapply Forall_impl; [exact Hb|]. intros p [_ Hh]. unfold kind_of.
      repeat case_decide; try done. lia.
    - replace (NR - NH) with (NR `max` NH - NH) by lia.
      rewrite <-(assignment_cols_ge (NR `max` NH) NH m Hm).
      unfold of_kind. f_equal. apply filter_ext_Forall.
      eapply Forall_impl; [exact Hb|]. intros p [Hr _]. unfold kind_of.
      repeat case_decide; try done; try lia. all: naive_solver lia.
Qed.
End Counting.

(** ** Cost of a pairing and number of matches *)

Lemma one_minus_mat N (f : nat → nat → bool) :
  one_minus (mat N f) = mat N (λ r h, (1 - Z.b2z (f r h))%Z).
Proof.
  unfold one_minus, mat. rewrite <-list_fmap_compose.
  apply list_fmap_ext. intros _ r _. simpl.
  by rewrite <-list_fmap_compose.
Qed.

Section Score.
Variable self_match : label → label → bool.
Variables (rlabels hlabels : list label) (N : nat).
Let NR := length rlabels.
Let NH := length hlabels.
Let M := match_matrix self_match N rlabels hlabels.

Lemma match_at_bounds r h :
    match_at self_match rlabels hlabels r h = true → r < NR ∧ h < NH.
Proof.
    unfold match_at. intros Hm.
    destruct (rlabels !! r) eqn:Hr; [|done].
    destruct (hlabels !! h) eqn:Hh; [|done].
    split; by eapply lookup_lt_Some.
Qed.

Lemma kind_of_correct p :
    p.1 < N → p.2 < N →
    kind_of NR NH M p = Correct
    ↔ match_at self_match rlabels hlabels p.1 p.2 = true.
Proof.
    intros Hr Hh. unfold kind_of, M, match_matrix.
    rewrite mat_lookup2 by done. split.
    - repeat case_decide; try done. by simplify_eq.
    - intros Hm. destruct (match_at_bounds _ _ Hm).
      rewrite Hm. rewrite !decide_False by lia. by rewrite decide_True.
Qed.

Lemma correct_count_score m :
    Forall (λ p, p.1 < N ∧ p.2 < N) m →
    length (of_kind NR NH M Correct m) = score self_match rlabels hlabels m.
Proof.
    intros Hm. unfold of_kind, score. f_equal. apply filter_ext_Forall.
    eapply Forall_impl; [exact Hm|]. intros p [? ?]. by apply kind_of_correct.
Qed.

Lemma cost_score m :
    Forall (λ p, p.1 < N ∧ p.2 < N) m →
    cost (one_minus M) m
    = (Z.of_nat (length m) - Z.of_nat (score self_match rlabels hlabels m))%Z.
Proof.
    unfold score. induction 1 as [|p m [Hr Hh] Hm IH]; [done|].
    simpl. rewrite IH, filter_cons. unfold entry, M, match_matrix.
    rewrite one_minus_mat, mat_lookup2 by done. simpl.
    destruct (match_at self_match rlabels hlabels p.1 p.2) eqn:Hp.
    - rewrite decide_True by done. simpl. lia.
    - rewrite decide_False by done. simpl. lia.
Qed.

(** A lowest-cost pairing is a pairing with the most matches. *)
Lemma optimal_max_score m m' :
    optimal N (one_minus M) m → assignment N m' →
    score self_match rlabels hlabels m' ≤ score self_match rlabels hlabels m.
Proof.
    intros [Hm Hopt] Hm'. specialize (Hopt m' Hm').
    rewrite !cost_score in Hopt by (by apply assignment_bounds).
    rewrite (assignment_length _ _ Hm), (assignment_length _ _ Hm') in Hopt.
    lia.
Qed.
End Score.

(** ** The exhaustive solver meets the contract *)

Lemma cost_Permutation C m m' : m ≡ₚ m' → cost C m = cost C m'.
Proof.
  induction 1 as [|p m m' _ IH|p q m|m1 m2 m3 _ IH1 _ IH2]; simpl.
  - done.
  - by rewrite IH.
  - lia.
  - by rewrite IH1.
Qed.

Lemma fmap_Permutation_inv {X Y} (f : X → Y) (l : list X) (k : list Y) :
  f <$> l ≡ₚ k → ∃ l', l ≡ₚ l' ∧ k = f <$> l'.
Proof.
  intros Hp. symmetry in Hp.
  destruct (Permutation_map_inv f l Hp) as (l' & Hk & Hl).
  by exists l'.
Qed.

Lemma assignment_zip n p : seq 0 n ≡ₚ p → assignment n (zip (seq 0 n) p).
Proof.
  intros Hp. assert (length p = n) as Hlen by (by rewrite <-Hp, length_seq).
  split.
  - by rewrite fst_zip by (rewrite length_seq; lia).
  - by rewrite snd_zip by (rewrite length_seq; lia).
Qed.

(** Every pairing is, up to the order of its pairs, the rows in increasing
    order zipped with a permutation of the columns. *)
Lemma assignment_sorted n m :
  assignment n m → ∃ p, seq 0 n ≡ₚ p ∧ m ≡ₚ zip (seq 0 n) p.
Proof.
  intros [Hrows Hcols].
  destruct (fmap_Permutation_inv fst m (seq 0 n) Hrows) as (m' & Hm & Hseq).
  exists (m'.*2). split.
  - by rewrite <-Hcols, Hm.
  - by rewrite Hseq, zip_fst_snd.
Qed.

Lemma foldl_cheaper C m ms :
  let best := foldl (cheaper C) m ms in
  (best = m ∨ best ∈ ms)
  ∧ (cost C best ≤ cost C m)%Z
  ∧ ∀ x, x ∈ ms → (cost C best ≤ cost C x)%Z.
Proof.
  revert m. induction ms as [|y ms IH]; intros m; simpl.
  - split; [by left|]. split; [done|]. intros x Hx. by apply elem_of_nil in Hx.
  - destruct (IH (cheaper C m y)) as (Hin & Hle & Hall).
    assert (cost C (cheaper C m y) ≤ cost C m
            ∧ cost C (cheaper C m y) ≤ cost C y)%Z as [Hm Hy]
      by (unfold cheaper; case_decide; lia).
    split; [|split].
    + destruct Hin as [->|Hin]; [|right; by apply list_elem_of_further].
      unfold cheaper. case_decide; [right; apply list_elem_of_here|by left].
    + lia.
    + intros x [->|Hx]%elem_of_cons; [lia|by apply Hall].
Qed.

Lemma candidates_spec n x :
  x ∈ candidates n ↔ ∃ p, seq 0 n ≡ₚ p ∧ x = zip (seq 0 n) p.
Proof.
  unfold candidates. rewrite list_elem_of_fmap.
  setoid_rewrite permutations_Permutation. split.
  - intros (p & -> & Hp). by exists p.
  - intros (p & Hp & ->). by exists p.
Qed.

(** Searching any enumeration of the candidates yields a lowest-cost
    pairing. *)
Lemma search_optimal n C cands :
  (∀ x, x ∈ cands ↔ x ∈ candidates n) →
  ∃ m, search C cands = Ok m ∧ optimal n C m.
Proof.
  intros Hcands. unfold search. destruct cands as [|m ms].
  { assert (zip (seq 0 n) (seq 0 n) ∈ candidates n) as Hin
      by (apply candidates_spec; by exists (seq 0 n)).
    apply Hcands in Hin. by apply elem_of_nil in Hin. }
  destruct (foldl_cheaper C m ms) as (Hin & Hle & Hall).
  eexists. split; [done|]. split.
  - assert (foldl (cheaper C) m ms ∈ m :: ms) as Hbest.
    { destruct Hin as [->|Hin]; [apply list_elem_of_here|].
      by apply list_elem_of_further. }
    apply Hcands, candidates_spec in Hbest as (p & Hp & ->).
    by apply assignment_zip.
  - intros m' Hm'. destruct (assignment_sorted n m' Hm') as (p & Hp & Hm'p).
    rewrite (cost_Permutation C m' _ Hm'p).
    assert (zip (seq 0 n) p ∈ m :: ms) as [->|Hx]%elem_of_cons
      by (apply Hcands, candidates_spec; eauto).
    + done.
    + by apply Hall.
Qed.

Lemma brute_force_contract : solver_contract brute_force.
Proof.
  intros n C _ [Hlen _]. unfold brute_force. rewrite Hlen.
  by apply search_optimal.
Qed.

Lemma brute_force_rev_contract : solver_contract brute_force_rev.
Proof.
  intros n C _ [Hlen _]. unfold brute_force_rev. rewrite Hlen.
  apply search_optimal. intros x. apply elem_of_reverse.
Qed.

(** ** What one call computes *)

Section Call.
Variable self_match : label → label → bool.
Variable compute : list (list Z) → result (list (nat * nat)).

(** The corner case: nothing is materialised, filled or solved. *)
Lemma call_len_zero rlabels hlabels :
    py_len rlabels = Ok 0 → py_len hlabels = Ok 0 →
    __call__ self_match compute rlabels hlabels = Ok (counts0, details0).
Proof. intros Hr Hh. unfold __call__, len. by rewrite Hr, Hh. Qed.

Hypothesis compute_ok : solver_contract compute.

(** On two lists, not both empty, the call succeeds: the solver returns a
      lowest-cost pairing [m] for the cost matrix of the match matrix, and the
      dictionaries returned are the tally and the listing of [m]. *)
Lemma call_run rlabels hlabels :
    let NR := length rlabels in
    let NH := length hlabels in
    let N := NR `max` NH in
    let M := match_matrix self_match N rlabels hlabels in
    0 < N →
    ∃ m, compute (one_minus M) = Ok m
       ∧ optimal N (one_minus M) m
       ∧ __call__ self_match compute (of_list rlabels) (of_list hlabels)
         = Ok (tally NR NH M m NR, listing NR NH M rlabels hlabels m).
Proof.
    intros NR NH N M HN.
    assert (square N (one_minus M)) as Hsq
      by (unfold M, match_matrix; rewrite one_minus_mat; apply mat_square).
    destruct (compute_ok N (one_minus M) HN Hsq) as (m & Hm & Hopt).
    exists m. split; [done|]. split; [done|].
    unfold __call__. simpl. fold NR NH N.
    rewrite decide_False by lia.
    rewrite fill_zeros by (unfold N, NR, NH; lia). simpl. fold M.
    rewrite Hm. simpl.
    pose proof (classify_loop rlabels hlabels N
                  (match_at self_match rlabels hlabels) eq_refl m 0
                  (assignment_bounds _ _ (proj1 Hopt))) as Hloop.
    change (foldM (classify NR NH rlabels hlabels M) (counts0, details0) m
            = Ok (tally NR NH M m 0, listing NR NH M rlabels hlabels m)) in Hloop.
    rewrite Hloop. simpl.
    unfold tally. by rewrite iadd_total.
Qed.
End Call.

Section CallResult.
Variable self_match : label → label → bool.
Variable compute : list (list Z) → result (list (nat * nat)).
Hypothesis compute_ok : solver_contract compute.

(** The same for every two lists: when both are empty the empty pairing
      plays the role of the solver's answer. *)
Lemma call_result rlabels hlabels :
    let NR := length rlabels in
    let NH := length hlabels in
    let N := NR `max` NH in
    let M := match_matrix self_match N rlabels hlabels in
    ∃ m, optimal N (one_minus M) m
       ∧ __call__ self_match compute (of_list rlabels) (of_list hlabels)
         = Ok (tally NR NH M m NR, listing NR NH M rlabels hlabels m).
Proof.
    intros NR NH N M. destruct (decide (N = 0)) as [HN|HN].
    - assert (rlabels = []) as -> by (apply nil_length_inv; lia).
      assert (hlabels = []) as -> by (apply nil_length_inv; lia).
      exists []. split; [|done]. split; [apply assignment_nil|].
      intros m' Hm'. apply assignment_length, nil_length_inv in Hm' as ->. done.
    - destruct (call_run self_match compute compute_ok rlabels hlabels)
        as (m & _ & Hopt & Hcall); [fold NR NH N; lia|].
      by exists m.
Qed.
End CallResult.

(** * The two predicates *)

Lemma py_eq_spec a b : py_eq a b = true ↔ a = b.
Proof.
  destruct a as [s|i], b as [t|j]; simpl;
    rewrite ?bool_decide_eq_true; split; intros; simplify_eq; done.
Qed.

(** C5. The base predicate [LabelMatcher.match] is Python's value equality
    [rlabel == hlabel]: it returns true if and only if the two labels are
    equal. *)
Theorem base_match_iff_equal (rlabel hlabel : label) :
  LabelMatcher.match_ rlabel hlabel = py_eq rlabel hlabel
  ∧ (LabelMatcher.match_ rlabel hlabel = true ↔ rlabel = hlabel).
Proof. split; [done|]. apply py_eq_spec. Qed.

(** C4. The unknown-aware predicate returns true on any two Unknown
    placeholders, whatever instance numbers they carry, and on every other
    pair it returns exactly the value equality of the two labels. *)
Theorem unknown_match_spec (rlabel hlabel : label) :
  LabelMatcherWithUnknownSupport.match_ rlabel hlabel
  = match rlabel, hlabel with
    | Unknown _, Unknown _ => true
    | _, _ => py_eq rlabel hlabel
    end
  ∧ (LabelMatcherWithUnknownSupport.match_ rlabel hlabel = true
     ↔ (∃ i j, rlabel = Unknown i ∧ hlabel = Unknown j) ∨ rlabel = hlabel).
Proof.
  split; [by destruct rlabel, hlabel|].
  unfold LabelMatcherWithUnknownSupport.match_, UnknownSupportMixin.match_.
  destruct rlabel as [s|i], hlabel as [t|j]; simpl; rewrite ?bool_decide_eq_true.
  - split; [intros ->; by right|]. intros [(? & ? & ? & ?)|?]; simplify_eq; done.
  - split; [done|]. intros [(? & ? & ? & ?)|?]; simplify_eq.
  - split; [done|]. intros [(? & ? & ? & ?)|?]; simplify_eq.
  - split; [|done]. intros _. left. by exists i, j.
Qed.

(** * The assignment engine *)

(** C6. On two empty sequences the call returns the five counts at zero and
    the four detail lists empty, whatever the solver is: the solver is not
    consulted, so even a solver that raises on every matrix changes nothing. *)
Theorem empty_inputs_zero_result
    (self_match : label → label → bool)
    (compute : list (list Z) → result (list (nat * nat))) :
  __call__ self_match compute (of_list []) (of_list [])
  = Ok ({[ MATCH_CORRECT := 0; MATCH_CONFUSION := 0; MATCH_MISSED_DETECTION := 0;
           MATCH_FALSE_ALARM := 0; MATCH_TOTAL := 0 ]},
        {[ MATCH_CORRECT := []; MATCH_CONFUSION := []; MATCH_MISSED_DETECTION := [];
           MATCH_FALSE_ALARM := [] ]})
  ∧ __call__ self_match (λ _, Raise SolverError) (of_list []) (of_list [])
    = __call__ self_match compute (of_list []) (of_list []).
Proof. split; by rewrite !call_len_zero. Qed.

(** C2. Conservation: for every two label lists, with a solver that meets
    its contract, the call returns counts whose four outcome entries add up
    to max(NR, NH) and whose total entry is NR. *)
Theorem conservation
    (self_match : label → label → bool)
    (compute : list (list Z) → result (list (nat * nat)))
    (rlabels hlabels : list label) :
  solver_contract compute →
  ∃ counts details co cf md fa,
    __call__ self_match compute (of_list rlabels) (of_list hlabels)
    = Ok (counts, details)
    ∧ counts !! MATCH_CORRECT = Some co
    ∧ counts !! MATCH_CONFUSION = Some cf
    ∧ counts !! MATCH_MISSED_DETECTION = Some md
    ∧ counts !! MATCH_FALSE_ALARM = Some fa
    ∧ co + cf + md + fa = length rlabels `max` length hlabels
    ∧ counts !! MATCH_TOTAL = Some (length rlabels).
Proof.
  intros Hsolver.
  destruct (call_result self_match compute Hsolver rlabels hlabels)
    as (m & [Hm _] & Hcall).
  eexists _, _, _, _, _, _. split; [exact Hcall|]. unfold tally.
  split; [apply (counts_of_lookup _ _ _ _ _ Correct)|].
  split; [apply (counts_of_lookup _ _ _ _ _ Confusion)|].
  split; [apply (counts_of_lookup _ _ _ _ _ MissedDetection)|].
  split; [apply (counts_of_lookup _ _ _ _ _ FalseAlarm)|].
  split; [|apply counts_of_total].
  rewrite of_kind_partition. by apply assignment_length.
Qed.

Lemma conservation_witness :
  solver_contract brute_force
  ∧ ∃ counts details co cf md fa,
      __call__ LabelMatcher.match_ brute_force
        (of_list [Name "A"; Name "B"; Name "C"]) (of_list [Name "B"; Name "A"])
      = Ok (counts, details)
      ∧ counts !! MATCH_CORRECT = Some co
      ∧ counts !! MATCH_CONFUSION = Some cf
      ∧ counts !! MATCH_MISSED_DETECTION = Some md
      ∧ counts !! MATCH_FALSE_ALARM = Some fa
      ∧ co + cf + md + fa = 3 `max` 2
      ∧ counts !! MATCH_TOTAL = Some 3.
Proof.
  split; [apply brute_force_contract|].
  apply (conservation LabelMatcher.match_ brute_force
           [Name "A"; Name "B"; Name "C"] [Name "B"; Name "A"]).
  apply brute_force_contract.
Defined.

(** C9. The missed-detection count is max(0, NR - NH), the false-alarm count
    is max(0, NH - NR), and correct + confusion is min(NR, NH): for every
    predicate, every two label lists and every solver that meets its
    contract, hence whichever lowest-cost pairing the solver picks. *)
Theorem padding_counts
    (self_match : label → label → bool)
    (compute : list (list Z) → result (list (nat * nat)))
    (rlabels hlabels : list label) :
  solver_contract compute →
  ∃ counts details co cf,
    __call__ self_match compute (of_list rlabels) (of_list hlabels)
    = Ok (counts, details)
    ∧ counts !! MATCH_MISSED_DETECTION = Some (length rlabels - length hlabels)
    ∧ counts !! MATCH_FALSE_ALARM = Some (length hlabels - length rlabels)
    ∧ counts !! MATCH_CORRECT = Some co
    ∧ counts !! MATCH_CONFUSION = Some cf
    ∧ co + cf = length rlabels `min` length hlabels.
Proof.
  intros Hsolver.
  destruct (call_result self_match compute Hsolver rlabels hlabels)
    as (m & [Hm _] & Hcall).
  set (NR := length rlabels) in *. set (NH := length hlabels) in *.
  set (M := match_matrix self_match (NR `max` NH) rlabels hlabels) in *.
  pose proof (of_kind_partition NR NH M m) as Hsum.
  pose proof (false_alarm_count NR NH M _ m Hm) as Hfa.
  pose proof (missed_detection_count NR NH M m Hm) as Hmd.
  rewrite (assignment_length _ _ Hm) in Hsum.
  eexists _, _, _, _. split; [exact Hcall|]. unfold tally.
  split; [rewrite <-Hmd; apply (counts_of_lookup _ _ _ _ _ MissedDetection)|].
  split.
  { replace (NH - NR) with (NR `max` NH - NR) by lia. rewrite <-Hfa.
    apply (counts_of_lookup _ _ _ _ _ FalseAlarm). }
  split; [apply (counts_of_lookup _ _ _ _ _ Correct)|].
  split; [apply (counts_of_lookup _ _ _ _ _ Confusion)|].
  lia.
Qed.

Lemma padding_counts_witness :
  solver_contract brute_force
  ∧ ∃ counts details co cf,
      __call__ LabelMatcherWithUnknownSupport.match_ brute_force
        (of_list [Unknown 1; Name "A"]) (of_list [Name "B"; Name "A"; Unknown 2])
      = Ok (counts, details)
      ∧ counts !! MATCH_MISSED_DETECTION = Some (2 - 3)
      ∧ counts !! MATCH_FALSE_ALARM = Some (3 - 2)
      ∧ counts !! MATCH_CORRECT = Some co
      ∧ counts !! MATCH_CONFUSION = Some cf
      ∧ co + cf = 2 `min` 3.
Proof.
  split; [apply brute_force_contract|].
  apply (padding_counts LabelMatcherWithUnknownSupport.match_ brute_force
           [Unknown 1; Name "A"] [Name "B"; Name "A"; Unknown 2]).
  apply brute_force_contract.
Defined.

(** C10. For each of the four outcome kinds, the integer in the returned
    counts equals the length of the list in the returned details. *)
Theorem counts_match_details
    (self_match : label → label → bool)
    (compute : list (list Z) → result (list (nat * nat)))
    (rlabels hlabels : list label) :
  solver_contract compute →
  ∃ counts details,
    __call__ self_match compute (of_list rlabels) (of_list hlabels)
    = Ok (counts, details)
    ∧ ∀ k, ∃ l, details !! key k = Some l ∧ counts !! key k = Some (length l).
Proof.
  intros Hsolver.
  destruct (call_result self_match compute Hsolver rlabels hlabels)
    as (m & _ & Hcall).
  eexists _, _. split; [exact Hcall|]. intros k.
  unfold tally, listing. rewrite counts_of_lookup, details_of_lookup.
  eexists. split; [done|]. destruct k; by rewrite length_fmap.
Qed.

Lemma counts_match_details_witness :
  solver_contract brute_force
  ∧ ∃ counts details,
      __call__ LabelMatcher.match_ brute_force
        (of_list [Name "A"; Name "B"; Name "C"]) (of_list [Name "C"; Name "D"])
      = Ok (counts, details)
      ∧ ∀ k, ∃ l, details !! key k = Some l ∧ counts !! key k = Some (length l).
Proof.
  split; [apply brute_force_contract|].
  apply (counts_match_details LabelMatcher.match_ brute_force
           [Name "A"; Name "B"; Name "C"] [Name "C"; Name "D"]).
  apply brute_force_contract.
Defined.

Lemma match_at_spec (self_match : label → label → bool) rlabels hlabels r h :
  match_at self_match rlabels hlabels r h = true
  ↔ r < length rlabels ∧ h < length hlabels
    ∧ ∃ a b, rlabels !! r = Some a ∧ hlabels !! h = Some b ∧ self_match a b = true.
Proof.
  split.
  - intros Hm. destruct (match_at_bounds _ _ _ _ _ Hm) as [? ?].
    split; [done|]. split; [done|]. unfold match_at in Hm.
    destruct (rlabels !! r) as [a|]; [|done].
    destruct (hlabels !! h) as [b|]; [|done]. by exists a, b.
  - intros (_ & _ & a & b & Ha & Hb & Hab). unfold match_at. by rewrite Ha, Hb.
Qed.

(** C1. Optimality: with a solver that meets its contract, the correct
    count returned for two label lists is the largest number of matching
    pairs that any one-to-one pairing of the N = max(NR, NH) padded rows
    with the N padded columns achieves: some pairing reaches it and none
    exceeds it. *)
Theorem correct_count_is_maximum
    (self_match : label → label → bool)
    (compute : list (list Z) → result (list (nat * nat)))
    (rlabels hlabels : list label) :
  solver_contract compute →
  ∃ counts details best,
    __call__ self_match compute (of_list rlabels) (of_list hlabels)
    = Ok (counts, details)
    ∧ counts !! MATCH_CORRECT = Some best
    ∧ (∃ m, assignment (length rlabels `max` length hlabels) m
          ∧ score self_match rlabels hlabels m = best)
    ∧ (∀ m, assignment (length rlabels `max` length hlabels) m →
          score self_match rlabels hlabels m ≤ best).
Proof.
  intros Hsolver.
  destruct (call_result self_match compute Hsolver rlabels hlabels)
    as (m & Hopt & Hcall).
  eexists _, _, _. split; [exact Hcall|].
  split; [apply (counts_of_lookup _ _ _ _ _ Correct)|].
  rewrite correct_count_score by (apply assignment_bounds, Hopt). split.
  - exists m. split; [apply Hopt|done].
  - intros m' Hm'. by eapply optimal_max_score.
Qed.

Lemma correct_count_is_maximum_witness :
  solver_contract brute_force
  ∧ ∃ counts details best,
      __call__ LabelMatcher.match_ brute_force
        (of_list [Name "A"; Name "B"; Name "A"]) (of_list [Name "B"; Name "A"])
      = Ok (counts, details)
      ∧ counts !! MATCH_CORRECT = Some best
      ∧ (∃ m, assignment (3 `max` 2) m
            ∧ score LabelMatcher.match_
                [Name "A"; Name "B"; Name "A"] [Name "B"; Name "A"] m = best)
      ∧ (∀ m, assignment (3 `max` 2) m →
            score LabelMatcher.match_
              [Name "A"; Name "B"; Name "A"] [Name "B"; Name "A"] m ≤ best).
Proof.
  split; [apply brute_force_contract|].
  apply (correct_count_is_maximum LabelMatcher.match_ brute_force
           [Name "A"; Name "B"; Name "A"] [Name "B"; Name "A"]).
  apply brute_force_contract.
Defined.

(** C7. Determinism of counts: two calls on the same two label lists return
    the same counts dictionary, also when they run on different matcher
    instances whose solvers may break ties between lowest-cost pairings
    differently.  The details may differ. *)
Theorem counts_deterministic
    (self_match : label → label → bool)
    (compute1 compute2 : list (list Z) → result (list (nat * nat)))
    (rlabels hlabels : list label) :
  solver_contract compute1 →
  solver_contract compute2 →
  ∃ counts details1 details2,
    __call__ self_match compute1 (of_list rlabels) (of_list hlabels)
    = Ok (counts, details1)
    ∧ __call__ self_match compute2 (of_list rlabels) (of_list hlabels)
      = Ok (counts, details2).
Proof.
  intros Hsolver1 Hsolver2.
  destruct (call_result self_match compute1 Hsolver1 rlabels hlabels)
    as (m1 & Hopt1 & Hcall1).
  destruct (call_result self_match compute2 Hsolver2 rlabels hlabels)
    as (m2 & Hopt2 & Hcall2).
  eexists _, _, _. split; [exact Hcall1|]. rewrite Hcall2. do 2 f_equal.
  set (NR := length rlabels) in *. set (NH := length hlabels) in *.
  set (M := match_matrix self_match (NR `max` NH) rlabels hlabels) in *.
  pose proof (proj1 Hopt1) as Hm1. pose proof (proj1 Hopt2) as Hm2.
  pose proof (of_kind_partition NR NH M m1) as Hsum1.
  pose proof (of_kind_partition NR NH M m2) as Hsum2.
  rewrite (assignment_length _ _ Hm1) in Hsum1.
  rewrite (assignment_length _ _ Hm2) in Hsum2.
  assert (length (of_kind NR NH M Correct m2) = length (of_kind NR NH M Correct m1))
    as Hco.
  { unfold M, NR, NH. rewrite !correct_count_score by (by apply assignment_bounds).
    apply Nat.le_antisymm; by eapply optimal_max_score. }
  assert (length (of_kind NR NH M FalseAlarm m2)
          = length (of_kind NR NH M FalseAlarm m1)) as Hfa
    by (by rewrite !(false_alarm_count NR NH M (NR `max` NH))).
  assert (length (of_kind NR NH M MissedDetection m2)
          = length (of_kind NR NH M MissedDetection m1)) as Hmd
    by (by rewrite !missed_detection_count).
  unfold tally. rewrite Hco, Hfa, Hmd. f_equal. lia.
Qed.

Lemma counts_deterministic_witness :
  solver_contract brute_force
  ∧ solver_contract brute_force_rev
  ∧ ∃ counts details1 details2,
      __call__ LabelMatcher.match_ brute_force
        (of_list [Name "A"; Name "A"]) (of_list [Name "A"; Name "B"])
      = Ok (counts, details1)
      ∧ __call__ LabelMatcher.match_ brute_force_rev
          (of_list [Name "A"; Name "A"]) (of_list [Name "A"; Name "B"])
        = Ok (counts, details2).
Proof.
  split; [apply brute_force_contract|].
  split; [apply brute_force_rev_contract|].
  apply (counts_deterministic LabelMatcher.match_ brute_force brute_force_rev
           [Name "A"; Name "A"] [Name "A"; Name "B"]).
  - apply brute_force_contract.
  - apply brute_force_rev_contract.
Defined.

(** On that input the two solvers pick different lowest-cost pairings, so
    the details differ although the counts agree. *)
Example tie_broken_differently :
  brute_force (one_minus (match_matrix LabelMatcher.match_ 2
                            [Name "A"; Name "A"] [Name "A"; Name "B"]))
  = Ok [(0, 0); (1, 1)]
  ∧ brute_force_rev (one_minus (match_matrix LabelMatcher.match_ 2
                                  [Name "A"; Name "A"] [Name "A"; Name "B"]))
    = Ok [(0, 1); (1, 0)].
Proof. split; reflexivity. Qed.

(** ** Classification *)

Lemma mapM_total {X Y} (f : X → option Y) (g : X → Y) (l : list X) :
  Forall (λ x, f x = Some (g x)) l → mapM f l = Some (g <$> l).
Proof.
  intros Hl. apply mapM_Some. induction Hl; constructor; done.
Qed.

Lemma detail_at_defined rlabels hlabels M k p :
  let NR := length rlabels in
  let NH := length hlabels in
  p.1 < NR `max` NH → p.2 < NR `max` NH →
  kind_of NR NH M p = k →
  detail_at rlabels hlabels k p = Some (detail_of rlabels hlabels k p).
Proof.
  intros NR NH Hr Hh <-. unfold kind_of, detail_at, detail_of.
  repeat case_decide.
  - rewrite list_lookup_lookup_total_lt by (fold NH; lia). done.
  - rewrite list_lookup_lookup_total_lt by (fold NR; lia). done.
  - rewrite !list_lookup_lookup_total_lt by (fold NR NH; lia). done.
  - rewrite !list_lookup_lookup_total_lt by (fold NR NH; lia). done.
Qed.

(** C3. For two label lists, not both empty, and a solver that meets its
    contract: the loops build the match matrix, the solver returns a mapping
    for its cost matrix, and the call files every pair (r, h) of the mapping
    under exactly one kind, chosen by the precedence [kind_of]: false alarm
    if r >= NR, else missed detection if h >= NH, else correct if the matrix
    entry is true, else confusion.  For each kind the detail list holds, in
    mapping order, the hypothesis label (false alarm), the reference label
    (missed detection) or the pair of both (correct, confusion), and the
    count is the number of pairs of that kind. *)
Theorem classification_precedence
    (self_match : label → label → bool)
    (compute : list (list Z) → result (list (nat * nat)))
    (rlabels hlabels : list label) :
  solver_contract compute →
  0 < length rlabels `max` length hlabels →
  ∃ M mapping counts details,
    fill self_match rlabels hlabels (zeros (length rlabels `max` length hlabels))
    = Ok M
    ∧ compute (one_minus M) = Ok mapping
    ∧ __call__ self_match compute (of_list rlabels) (of_list hlabels)
      = Ok (counts, details)
    ∧ (∀ k, ∃ l,
          mapM (detail_at rlabels hlabels k)
               (of_kind (length rlabels) (length hlabels) M k mapping) = Some l
          ∧ details !! key k = Some l
          ∧ counts !! key k = Some (length l))
    ∧ (∀ p k, p ∈ of_kind (length rlabels) (length hlabels) M k mapping
              ↔ p ∈ mapping ∧ kind_of (length rlabels) (length hlabels) M p = k)
    ∧ length (of_kind (length rlabels) (length hlabels) M Correct mapping)
      + length (of_kind (length rlabels) (length hlabels) M Confusion mapping)
      + length (of_kind (length rlabels) (length hlabels) M MissedDetection mapping)
      + length (of_kind (length rlabels) (length hlabels) M FalseAlarm mapping)
      = length mapping.
Proof.
  intros Hsolver HN.
  destruct (call_run self_match compute Hsolver rlabels hlabels HN)
    as (m & Hm & Hopt & Hcall).
  set (NR := length rlabels) in *. set (NH := length hlabels) in *.
  set (M := match_matrix self_match (NR `max` NH) rlabels hlabels) in *.
  exists M, m. eexists _, _.
  split; [apply fill_zeros; fold NR NH; lia|].
  split; [done|]. split; [exact Hcall|]. split; [|split].
  - intros k. exists (detail_of rlabels hlabels k <$> of_kind NR NH M k m).
    split; [|split].
    + apply mapM_total, Forall_forall. intros p Hp.
      apply list_elem_of_filter in Hp as [Hk Hp].
      pose proof (assignment_bounds _ _ (proj1 Hopt)) as Hb.
      rewrite Forall_forall in Hb. destruct (Hb p Hp) as [? ?].
      by eapply detail_at_defined.
    + unfold listing. rewrite details_of_lookup. by destruct k.
    + unfold tally. rewrite counts_of_lookup, length_fmap. by destruct k.
  - intros p k. unfold of_kind. rewrite list_elem_of_filter. tauto.
  - apply of_kind_partition.
Qed.

Lemma classification_precedence_witness :
  solver_contract brute_force
  ∧ 0 < 2 `max` 3
  ∧ ∃ M mapping counts details,
      fill LabelMatcher.match_ [Name "A"; Name "B"]
        [Name "C"; Name "A"; Name "D"] (zeros (2 `max` 3)) = Ok M
      ∧ brute_force (one_minus M) = Ok mapping
      ∧ __call__ LabelMatcher.match_ brute_force
          (of_list [Name "A"; Name "B"]) (of_list [Name "C"; Name "A"; Name "D"])
        = Ok (counts, details)
      ∧ (∀ k, ∃ l,
            mapM (detail_at [Name "A"; Name "B"] [Name "C"; Name "A"; Name "D"] k)
                 (of_kind 2 3 M k mapping) = Some l
            ∧ details !! key k = Some l
            ∧ counts !! key k = Some (length l))
      ∧ (∀ p k, p ∈ of_kind 2 3 M k mapping
                ↔ p ∈ mapping ∧ kind_of 2 3 M p = k)
      ∧ length (of_kind 2 3 M Correct mapping)
        + length (of_kind 2 3 M Confusion mapping)
        + length (of_kind 2 3 M MissedDetection mapping)
        + length (of_kind 2 3 M FalseAlarm mapping)
        = length mapping.
Proof.
  split; [apply brute_force_contract|]. split; [simpl; lia|].
  apply (classification_precedence LabelMatcher.match_ brute_force
           [Name "A"; Name "B"] [Name "C"; Name "A"; Name "D"]).
  - apply brute_force_contract.
  - simpl. lia.
Defined.

(** * Malformed arguments *)




(** The exception is the one the builtin raised, not always [TypeError]: a
    negative [__len__] gives [ValueError], an object without a length gives
    [TypeError], and an exception raised while iterating is passed on. *)
Example malformed_errors_passed_on :
  __call__ LabelMatcher.match_ brute_force
    (PyObj (Raise ValueError) (Ok [Name "A"])) (of_list [Name "A"])
  = Raise ValueError
  ∧ __call__ LabelMatcher.match_ brute_force
      (of_list [Name "A"]) (PyObj (Raise TypeError) (Ok [Name "A"]))
    = Raise TypeError
  ∧ __call__ LabelMatcher.match_ brute_force
      (PyObj (Ok 1) (Raise (OtherError "RuntimeError"))) (of_list [Name "A"])
    = Raise (OtherError "RuntimeError").
Proof. repeat split. Qed.

(** * The behaviours listed as testable properties, on concrete inputs *)

Example identical_sequences :
  ∃ details,
    __call__ LabelMatcher.match_ brute_force
      (of_list [Name "A"; Name "B"]) (of_list [Name "A"; Name "B"])
    = Ok (counts_of 2 0 0 0 2, details).
Proof. eexists. vm_compute. reflexivity. Qed.

Example pure_false_alarm :
  __call__ LabelMatcher.match_ brute_force (of_list []) (of_list [Name "X"])
  = Ok (counts_of 0 0 0 1 0, details_of [] [] [] [Single (Name "X")]).
Proof. vm_compute. reflexivity. Qed.

Example pure_missed_detection :
  __call__ LabelMatcher.match_ brute_force (of_list [Name "X"]) (of_list [])
  = Ok (counts_of 0 0 1 0 1, details_of [] [] [Single (Name "X")] []).
Proof. vm_compute. reflexivity. Qed.

Example confusion :
  __call__ LabelMatcher.match_ brute_force (of_list [Name "A"]) (of_list [Name "B"])
  = Ok (counts_of 0 1 0 0 1, details_of [] [Pair (Name "A") (Name "B")] [] []).
Proof. vm_compute. reflexivity. Qed.

Example unknown_placeholders_match :
  __call__ LabelMatcherWithUnknownSupport.match_ brute_force
    (of_list [Unknown 1]) (of_list [Unknown 2])
  = Ok (counts_of 1 0 0 0 1, details_of [Pair (Unknown 1) (Unknown 2)] [] [] [])
  ∧ __call__ LabelMatcher.match_ brute_force
      (of_list [Unknown 1]) (of_list [Unknown 2])
    = Ok (counts_of 0 1 0 0 1, details_of [] [Pair (Unknown 1) (Unknown 2)] [] []).
Proof. split; vm_compute; reflexivity. Qed.

(** * Further properties of the module *)

(** ** The match matrix *)

(** X1. The two nested loops over [enumerate(rlabels)] and
    [enumerate(hlabels)] succeed on an N by N matrix of zeros whenever both
    lists have at most N labels, and leave a square matrix whose entry
    (r, h) is [self.match(rlabels[r], hlabels[h])] inside both lists and
    False on the padding. *)
Theorem match_matrix_construction
    (self_match : label → label → bool) (N : nat) (rlabels hlabels : list label) :
  length rlabels ≤ N → length hlabels ≤ N →
  ∃ M, fill self_match rlabels hlabels (zeros N) = Ok M
     ∧ square N M
     ∧ ∀ r h, r < N → h < N →
         M !! r ≫= (.!! h)
         = Some match rlabels !! r, hlabels !! h with
                | Some a, Some b => self_match a b
                | _, _ => false
                end.
Proof.
  intros Hr Hh. exists (match_matrix self_match N rlabels hlabels).
  split; [by apply fill_zeros|]. split; [apply mat_square|].
  intros r h Hr' Hh'. unfold match_matrix. by rewrite mat_lookup2.
Qed.

Lemma match_matrix_construction_witness :
  2 ≤ 3 ∧ 1 ≤ 3
  ∧ ∃ M, fill LabelMatcher.match_ [Name "A"; Name "B"] [Name "B"] (zeros 3) = Ok M
       ∧ square 3 M
       ∧ ∀ r h, r < 3 → h < 3 →
           M !! r ≫= (.!! h)
           = Some match [Name "A"; Name "B"] !! r, [Name "B"] !! h with
                  | Some a, Some b => LabelMatcher.match_ a b
                  | _, _ => false
                  end.
Proof.
  split; [lia|]. split; [lia|].
  apply (match_matrix_construction LabelMatcher.match_ 3
           [Name "A"; Name "B"] [Name "B"]); simpl; lia.
Defined.

Lemma match_matrix_ext (sm1 sm2 : label → label → bool) N rlabels hlabels :
  (∀ a b, a ∈ rlabels → b ∈ hlabels → sm1 a b = sm2 a b) →
  match_matrix sm1 N rlabels hlabels = match_matrix sm2 N rlabels hlabels.
Proof.
  intros Hsm. apply mat_ext. intros r h _ _. unfold match_at.
  destruct (rlabels !! r) as [a|] eqn:Ha; [|done].
  destruct (hlabels !! h) as [b|] eqn:Hb; [|done].
  apply Hsm; by eapply list_elem_of_lookup_2.
Qed.

(** Two predicates that agree on every pair of a reference label and a
    hypothesis label give the same call, whatever the solver does. *)
Lemma call_ext (sm1 sm2 : label → label → bool) compute rlabels hlabels :
  (∀ a b, a ∈ rlabels → b ∈ hlabels → sm1 a b = sm2 a b) →
  __call__ sm1 compute (of_list rlabels) (of_list hlabels)
  = __call__ sm2 compute (of_list rlabels) (of_list hlabels).
Proof.
  intros Hsm. unfold __call__. simpl. case_decide; [done|].
  rewrite !fill_zeros by lia.
  by rewrite (match_matrix_ext sm1 sm2 _ _ _ Hsm).
Qed.

(** ** The unknown-aware predicate *)

(** X2. [UnknownSupportMixin.match] is an equivalence relation on labels:
    reflexive, symmetric and transitive.  All Unknown placeholders form one
    class and every name is a class of its own. *)
Theorem unknown_match_equivalence :
  (∀ a, LabelMatcherWithUnknownSupport.match_ a a = true)
  ∧ (∀ a b, LabelMatcherWithUnknownSupport.match_ a b
            = LabelMatcherWithUnknownSupport.match_ b a)
  ∧ (∀ a b c, LabelMatcherWithUnknownSupport.match_ a b = true →
              LabelMatcherWithUnknownSupport.match_ b c = true →
              LabelMatcherWithUnknownSupport.match_ a c = true).
Proof.
  unfold LabelMatcherWithUnknownSupport.match_, UnknownSupportMixin.match_.
  split; [|split].
  - intros [s|i]; simpl; [by apply bool_decide_eq_true|done].
  - intros [s|i] [t|j]; simpl; try done.
    apply bool_decide_ext. split; by intros ->.
  - intros [s|i] [t|j] [u|k]; simpl; try done.
    rewrite !bool_decide_eq_true. by intros -> ->.
Qed.

(** X3. When one of the two lists holds no Unknown placeholder, the matcher
    with unknown support returns exactly what the base matcher returns,
    counts and details, with any solver. *)
Theorem unknown_support_inert_without_unknowns
    (compute : list (list Z) → result (list (nat * nat)))
    (rlabels hlabels : list label) :
  Forall (λ a, isinstance_Unknown a = false) rlabels
  ∨ Forall (λ b, isinstance_Unknown b = false) hlabels →
  __call__ LabelMatcherWithUnknownSupport.match_ compute
    (of_list rlabels) (of_list hlabels)
  = __call__ LabelMatcher.match_ compute (of_list rlabels) (of_list hlabels).
Proof.
  intros Hno. apply call_ext. intros a b Ha Hb.
  unfold LabelMatcherWithUnknownSupport.match_, UnknownSupportMixin.match_,
    LabelMatcher.match_.
  destruct Hno as [Hno|Hno]; rewrite Forall_forall in Hno.
  - by rewrite (Hno a Ha).
  - rewrite (Hno b Hb). by rewrite andb_false_r.
Qed.

Lemma unknown_support_inert_without_unknowns_witness :
  (Forall (λ a, isinstance_Unknown a = false) [Name "A"; Name "B"]
   ∨ Forall (λ b, isinstance_Unknown b = false) [Unknown 1; Name "A"; Unknown 2])
  ∧ __call__ LabelMatcherWithUnknownSupport.match_ brute_force
      (of_list [Name "A"; Name "B"]) (of_list [Unknown 1; Name "A"; Unknown 2])
    = __call__ LabelMatcher.match_ brute_force
        (of_list [Name "A"; Name "B"]) (of_list [Unknown 1; Name "A"; Unknown 2]).
Proof.
  assert (Forall (λ a, isinstance_Unknown a = false) [Name "A"; Name "B"]) as Hno
    by (repeat constructor).
  split; [by left|].
  apply (unknown_support_inert_without_unknowns brute_force
           [Name "A"; Name "B"] [Unknown 1; Name "A"; Unknown 2]).
  by left.
Defined.

(** ** Failure of the solver *)

(** X4. An exception raised by the solver on the cost matrix is raised by
    the call: no counts are returned in its place. *)
Theorem solver_failure_propagates
    (self_match : label → label → bool)
    (compute : list (list Z) → result (list (nat * nat)))
    (rlabels hlabels : list label) (e : exn) :
  0 < length rlabels `max` length hlabels →
  compute (one_minus (match_matrix self_match
                        (length rlabels `max` length hlabels) rlabels hlabels))
  = Raise e →
  __call__ self_match compute (of_list rlabels) (of_list hlabels) = Raise e.
Proof.
  intros HN He. unfold __call__. simpl.
  rewrite decide_False by lia. rewrite fill_zeros by lia. simpl.
  by rewrite He.
Qed.

Lemma solver_failure_propagates_witness :
  0 < 1 `max` 0
  ∧ (λ _ : list (list Z), Raise (A := list (nat * nat)) SolverError)
      (one_minus (match_matrix LabelMatcher.match_ (1 `max` 0) [Name "A"] []))
    = Raise SolverError
  ∧ __call__ LabelMatcher.match_ (λ _, Raise SolverError)
      (of_list [Name "A"]) (of_list [])
    = Raise SolverError.
Proof.
  split; [simpl; lia|]. split; [done|].
  apply (solver_failure_propagates LabelMatcher.match_ (λ _, Raise SolverError)
           [Name "A"] [] SolverError); [simpl; lia|done].
Defined.

(** ** What the details hold *)

Section Kinds.
Variable self_match : label → label → bool.
Variables (rlabels hlabels : list label).
Let NR := length rlabels.
Let NH := length hlabels.
Let N := NR `max` NH.
Let M := match_matrix self_match N rlabels hlabels.

(** What the kind of an in-range pair says about the two sequences. *)
Lemma kind_of_lookups p :
  p.1 < N → p.2 < N →
  match kind_of NR NH M p with
  | Correct =>
      ∃ a b, rlabels !! p.1 = Some a ∧ hlabels !! p.2 = Some b
             ∧ self_match a b = true
  | Confusion =>
      ∃ a b, rlabels !! p.1 = Some a ∧ hlabels !! p.2 = Some b
             ∧ self_match a b = false
  | MissedDetection => (∃ a, rlabels !! p.1 = Some a) ∧ NH ≤ p.2
  | FalseAlarm => (∃ b, hlabels !! p.2 = Some b) ∧ NR ≤ p.1
  end.
Proof.
  intros Hr Hh. unfold kind_of, M, match_matrix.
  rewrite mat_lookup2 by done.
  destruct (decide (NR ≤ p.1)) as [HrNR|HrNR].
  { split; [|done]. apply lookup_lt_is_Some_2. fold NH. unfold N in *. lia. }
  destruct (decide (NH ≤ p.2)) as [HhNH|HhNH].
  { split; [|done]. apply lookup_lt_is_Some_2. fold NR. lia. }
  destruct (lookup_lt_is_Some_2 rlabels p.1) as [a Ha]; [fold NR; lia|].
  destruct (lookup_lt_is_Some_2 hlabels p.2) as [b Hb]; [fold NH; lia|].
  unfold match_at. rewrite Ha, Hb.
  destruct (self_match a b) eqn:Hab.
  - rewrite decide_True by done. by exists a, b.
  - rewrite decide_False by done. by exists a, b.
Qed.
End Kinds.

(** X5. What the call lists is sound.  Every pair under "correct" is a
    reference label and a hypothesis label that the predicate matches; every
    pair under "confusion" is one that it does not match; every missed
    detection is a lone reference label and every false alarm a lone
    hypothesis label. *)
Theorem details_sound
    (self_match : label → label → bool)
    (compute : list (list Z) → result (list (nat * nat)))
    (rlabels hlabels : list label) :
  solver_contract compute →
  ∃ counts details co cf md fa,
    __call__ self_match compute (of_list rlabels) (of_list hlabels)
    = Ok (counts, details)
    ∧ details !! MATCH_CORRECT = Some co
    ∧ details !! MATCH_CONFUSION = Some cf
    ∧ details !! MATCH_MISSED_DETECTION = Some md
    ∧ details !! MATCH_FALSE_ALARM = Some fa
    ∧ Forall (λ d, ∃ x y, d = Pair x y ∧ x ∈ rlabels ∧ y ∈ hlabels
                          ∧ self_match x y = true) co
    ∧ Forall (λ d, ∃ x y, d = Pair x y ∧ x ∈ rlabels ∧ y ∈ hlabels
                          ∧ self_match x y = false) cf
    ∧ Forall (λ d, ∃ x, d = Single x ∧ x ∈ rlabels) md
    ∧ Forall (λ d, ∃ y, d = Single y ∧ y ∈ hlabels) fa.
Proof.
  intros Hsolver.
  destruct (call_result self_match compute Hsolver rlabels hlabels)
    as (m & [Hm _] & Hcall).
  set (NR := length rlabels) in *. set (NH := length hlabels) in *.
  set (M := match_matrix self_match (NR `max` NH) rlabels hlabels) in *.
  pose proof (assignment_bounds _ _ Hm) as Hb. rewrite Forall_forall in Hb.
  assert (∀ k p, p ∈ of_kind NR NH M k m →
            kind_of NR NH M p = k ∧ p.1 < NR `max` NH ∧ p.2 < NR `max` NH)
    as Hin.
  { intros k p [Hk Hp]%list_elem_of_filter. split; [done|]. by apply Hb. }
  eexists _, _, _, _, _, _. split; [exact Hcall|]. unfold listing.
  split; [apply (details_of_lookup _ _ _ _ Correct)|].
  split; [apply (details_of_lookup _ _ _ _ Confusion)|].
  split; [apply (details_of_lookup _ _ _ _ MissedDetection)|].
  split; [apply (details_of_lookup _ _ _ _ FalseAlarm)|].
  repeat split; rewrite Forall_fmap; apply Forall_forall; intros p Hp;
    destruct (Hin _ _ Hp) as (Hk & Hr & Hh);
    pose proof (kind_of_lookups self_match rlabels hlabels p Hr Hh) as Hl;
    fold NR NH M in Hl; rewrite Hk in Hl; simpl.
  - destruct Hl as (a & b & Ha & Hb' & Hab). exists a, b.
    rewrite (list_lookup_total_correct _ _ _ Ha),
      (list_lookup_total_correct _ _ _ Hb').
    split; [done|]. split; [by eapply list_elem_of_lookup_2|].
    split; [by eapply list_elem_of_lookup_2|done].
  - destruct Hl as (a & b & Ha & Hb' & Hab). exists a, b.
    rewrite (list_lookup_total_correct _ _ _ Ha),
      (list_lookup_total_correct _ _ _ Hb').
    split; [done|]. split; [by eapply list_elem_of_lookup_2|].
    split; [by eapply list_elem_of_lookup_2|done].
  - destruct Hl as ((a & Ha) & _). exists a.
    rewrite (list_lookup_total_correct _ _ _ Ha).
    split; [done|]. by eapply list_elem_of_lookup_2.
  - destruct Hl as ((b & Hb') & _). exists b.
    rewrite (list_lookup_total_correct _ _ _ Hb').
    split; [done|]. by eapply list_elem_of_lookup_2.
Qed.

Lemma details_sound_witness :
  solver_contract brute_force
  ∧ ∃ counts details co cf md fa,
      __call__ LabelMatcherWithUnknownSupport.match_ brute_force
        (of_list [Unknown 1; Name "A"; Name "B"]) (of_list [Name "C"; Unknown 2])
      = Ok (counts, details)
      ∧ details !! MATCH_CORRECT = Some co
      ∧ details !! MATCH_CONFUSION = Some cf
      ∧ details !! MATCH_MISSED_DETECTION = Some md
      ∧ details !! MATCH_FALSE_ALARM = Some fa
      ∧ Forall (λ d, ∃ x y, d = Pair x y
                  ∧ x ∈ [Unknown 1; Name "A"; Name "B"]
                  ∧ y ∈ [Name "C"; Unknown 2]
                  ∧ LabelMatcherWithUnknownSupport.match_ x y = true) co
      ∧ Forall (λ d, ∃ x y, d = Pair x y
                  ∧ x ∈ [Unknown 1; Name "A"; Name "B"]
                  ∧ y ∈ [Name "C"; Unknown 2]
                  ∧ LabelMatcherWithUnknownSupport.match_ x y = false) cf
      ∧ Forall (λ d, ∃ x, d = Single x ∧ x ∈ [Unknown 1; Name "A"; Name "B"]) md
      ∧ Forall (λ d, ∃ y, d = Single y ∧ y ∈ [Name "C"; Unknown 2]) fa.
Proof.
  split; [apply brute_force_contract|].
  apply (details_sound LabelMatcherWithUnknownSupport.match_ brute_force
           [Unknown 1; Name "A"; Name "B"] [Name "C"; Unknown 2]).
  apply brute_force_contract.
Defined.

(** ** Every label is accounted for once *)

Lemma fmap_filter_fst {Y} (f : nat → Y) (Q : nat → Prop) `{!∀ x, Decision (Q x)}
    (m : list (nat * nat)) :
  (λ p, f p.1) <$> filter (λ p, Q p.1) m = f <$> filter Q m.*1.
Proof.
  induction m as [|p m IH]; [done|].
  rewrite fmap_cons, !filter_cons. case_decide; [|exact IH].
  rewrite !fmap_cons. f_equal. exact IH.
Qed.

Lemma fmap_filter_snd {Y} (f : nat → Y) (Q : nat → Prop) `{!∀ x, Decision (Q x)}
    (m : list (nat * nat)) :
  (λ p, f p.2) <$> filter (λ p, Q p.2) m = f <$> filter Q m.*2.
Proof.
  induction m as [|p m IH]; [done|].
  rewrite fmap_cons, !filter_cons. case_decide; [|exact IH].
  rewrite !fmap_cons. f_equal. exact IH.
Qed.

Lemma filter_seq_lt n k : filter (λ i, i < k) (seq 0 n) = seq 0 (n `min` k).
Proof.
  induction n as [|n IH]; [done|].
  rewrite seq_S, filter_app, IH, filter_cons, filter_nil.
  change (0 + n) with n. case_decide.
  - replace (S n `min` k) with (S n) by lia.
    replace (n `min` k) with n by lia. by rewrite seq_S.
  - replace (S n `min` k) with (n `min` k) by lia. by rewrite app_nil_r.
Qed.

Lemma fmap_lookup_total_seq (l : list label) :
  (λ i, l !!! i) <$> seq 0 (length l) = l.
Proof.
  apply list_eq. intros i. rewrite list_lookup_fmap.
  destruct (decide (i < length l)) as [Hi|Hi].
  - rewrite lookup_seq_lt by done. simpl.
    by rewrite list_lookup_lookup_total_lt.
  - rewrite lookup_seq_ge by lia. simpl. symmetry. apply lookup_ge_None. lia.
Qed.

(** The labels read at the real rows (resp. columns) of a pairing are the
    labels of the sequence, each once. *)
Lemma assignment_rows_labels (l : list label) n m :
  assignment n m → length l ≤ n →
  (λ p, l !!! p.1) <$> filter (λ p, p.1 < length l) m ≡ₚ l.
Proof.
  intros [Hrows _] Hn.
  pose proof (fmap_filter_fst (λ i, l !!! i) (λ i, i < length l) m) as Heq.
  cbv beta in Heq. rewrite Heq, Hrows.
  rewrite filter_seq_lt. replace (n `min` length l) with (length l) by lia.
  by rewrite fmap_lookup_total_seq.
Qed.

Lemma assignment_cols_labels (l : list label) n m :
  assignment n m → length l ≤ n →
  (λ p, l !!! p.2) <$> filter (λ p, p.2 < length l) m ≡ₚ l.
Proof.
  intros [_ Hcols] Hn.
  pose proof (fmap_filter_snd (λ i, l !!! i) (λ i, i < length l) m) as Heq.
  cbv beta in Heq. rewrite Heq, Hcols.
  rewrite filter_seq_lt. replace (n `min` length l) with (length l) by lia.
  by rewrite fmap_lookup_total_seq.
Qed.

Section Rows.
Variables (NR NH : nat) (M : list (list bool)).

Lemma kind_of_cases p :
  match kind_of NR NH M p with
  | Correct | Confusion => p.1 < NR ∧ p.2 < NH
  | MissedDetection => p.1 < NR ∧ NH ≤ p.2
  | FalseAlarm => NR ≤ p.1
  end.
Proof. unfold kind_of. repeat case_decide; lia. Qed.

(** The pairs with a real row are the correct ones, the confusions and the
    missed detections. *)
Lemma of_kind_real_rows m :
  of_kind NR NH M Correct m ++ of_kind NR NH M Confusion m
  ++ of_kind NR NH M MissedDetection m
  ≡ₚ filter (λ p, p.1 < NR) m.
Proof.
  unfold of_kind. induction m as [|p m IH]; [done|].
  rewrite !filter_cons. pose proof (kind_of_cases p) as Hp.
  destruct (kind_of NR NH M p); simpl.
  - rewrite decide_True by lia. by rewrite <-IH.
  - rewrite decide_True by lia. rewrite <-IH. by rewrite <-Permutation_middle.
  - rewrite decide_True by lia. rewrite <-IH.
    rewrite !app_assoc. by rewrite <-Permutation_middle.
  - rewrite decide_False by lia. exact IH.
Qed.

(** The pairs with a real column are the correct ones, the confusions and
    the false alarms, in a pairing of the padded size. *)
Lemma of_kind_real_cols m :
  Forall (λ p, p.1 < NR `max` NH ∧ p.2 < NR `max` NH) m →
  of_kind NR NH M Correct m ++ of_kind NR NH M Confusion m
  ++ of_kind NR NH M FalseAlarm m
  ≡ₚ filter (λ p, p.2 < NH) m.
Proof.
  unfold of_kind. induction 1 as [|p m [Hr Hh] Hm IH]; [done|].
  rewrite !filter_cons. pose proof (kind_of_cases p) as Hp.
  destruct (kind_of NR NH M p); simpl.
  - rewrite decide_True by lia. by rewrite <-IH.
  - rewrite decide_True by lia. rewrite <-IH. by rewrite <-Permutation_middle.
  - rewrite decide_False by lia. exact IH.
  - rewrite decide_True by lia. rewrite <-IH.
    rewrite !app_assoc. by rewrite <-Permutation_middle.
Qed.
End Rows.

(** X6. Nothing is lost and nothing is counted twice.  The reference labels
    of the correct pairs, of the confusions and of the missed detections are,
    together, the reference sequence up to order; the hypothesis labels of
    the correct pairs, of the confusions and of the false alarms are the
    hypothesis sequence up to order. *)
Theorem every_label_accounted_once
    (self_match : label → label → bool)
    (compute : list (list Z) → result (list (nat * nat)))
    (rlabels hlabels : list label) :
  solver_contract compute →
  ∃ counts details co cf md fa,
    __call__ self_match compute (of_list rlabels) (of_list hlabels)
    = Ok (counts, details)
    ∧ details !! MATCH_CORRECT = Some co
    ∧ details !! MATCH_CONFUSION = Some cf
    ∧ details !! MATCH_MISSED_DETECTION = Some md
    ∧ details !! MATCH_FALSE_ALARM = Some fa
    ∧ reference_of <$> (co ++ cf ++ md) ≡ₚ rlabels
    ∧ hypothesis_of <$> (co ++ cf ++ fa) ≡ₚ hlabels.
Proof.
  intros Hsolver.
  destruct (call_result self_match compute Hsolver rlabels hlabels)
    as (m & [Hm _] & Hcall).
  set (NR := length rlabels) in *. set (NH := length hlabels) in *.
  set (M := match_matrix self_match (NR `max` NH) rlabels hlabels) in *.
  eexists _, _, _, _, _, _. split; [exact Hcall|]. unfold listing.
  split; [apply (details_of_lookup _ _ _ _ Correct)|].
  split; [apply (details_of_lookup _ _ _ _ Confusion)|].
  split; [apply (details_of_lookup _ _ _ _ MissedDetection)|].
  split; [apply (details_of_lookup _ _ _ _ FalseAlarm)|].
  split.
  - trans ((λ p, rlabels !!! p.1)
           <$> (of_kind NR NH M Correct m ++ of_kind NR NH M Confusion m
                ++ of_kind NR NH M MissedDetection m)).
    { rewrite !fmap_app, <-!list_fmap_compose. done. }
    rewrite of_kind_real_rows. apply (assignment_rows_labels _ _ _ Hm).
    fold NR. lia.
  - trans ((λ p, hlabels !!! p.2)
           <$> (of_kind NR NH M Correct m ++ of_kind NR NH M Confusion m
                ++ of_kind NR NH M FalseAlarm m)).
    { rewrite !fmap_app, <-!list_fmap_compose. done. }
    rewrite of_kind_real_cols by (by apply assignment_bounds).
    apply (assignment_cols_labels _ _ _ Hm). fold NH. lia.
Qed.

Lemma every_label_accounted_once_witness :
  solver_contract brute_force
  ∧ ∃ counts details co cf md fa,
      __call__ LabelMatcher.match_ brute_force
        (of_list [Name "A"; Name "B"; Name "A"]) (of_list [Name "C"; Name "A"])
      = Ok (counts, details)
      ∧ details !! MATCH_CORRECT = Some co
      ∧ details !! MATCH_CONFUSION = Some cf
      ∧ details !! MATCH_MISSED_DETECTION = Some md
      ∧ details !! MATCH_FALSE_ALARM = Some fa
      ∧ reference_of <$> (co ++ cf ++ md) ≡ₚ [Name "A"; Name "B"; Name "A"]
      ∧ hypothesis_of <$> (co ++ cf ++ fa) ≡ₚ [Name "C"; Name "A"].
Proof.
  split; [apply brute_force_contract|].
  apply (every_label_accounted_once LabelMatcher.match_ brute_force
           [Name "A"; Name "B"; Name "A"] [Name "C"; Name "A"]).
  apply brute_force_contract.
Defined.

(** ** How the counts depend on the predicate and on the sequences *)

Lemma length_filter_mono {X} (P Q : X → Prop)
    `{!∀ x, Decision (P x), !∀ x, Decision (Q x)} (l : list X) :
  Forall (λ x, P x → Q x) l → length (filter P l) ≤ length (filter Q l).
Proof.
  induction 1 as [|x l Hx Hl IH]; [done|].
  rewrite !filter_cons. repeat case_decide; simpl; try lia. tauto.
Qed.

Lemma length_filter_fmap {X Y} (f : X → Y) (P : Y → Prop)
    `{!∀ y, Decision (P y)} (l : list X) :
  length (filter P (f <$> l)) = length (filter (λ x, P (f x)) l).
Proof.
  induction l as [|x l IH]; [done|].
  rewrite fmap_cons, !filter_cons. case_decide; simpl; by rewrite IH.
Qed.

Lemma filter_all {X} (P : X → Prop) `{!∀ x, Decision (P x)} (l : list X) :
  Forall P l → filter P l = l.
Proof.
  induction 1 as [|x l Hx Hl IH]; [done|].
  by rewrite filter_cons_True, IH.
Qed.

(** In pairings of the padded size the counts are fixed by the number of
    correct pairs. *)
Lemma tally_eq NR NH M1 M2 m1 m2 tot :
  assignment (NR `max` NH) m1 → assignment (NR `max` NH) m2 →
  length (of_kind NR NH M1 Correct m1) = length (of_kind NR NH M2 Correct m2) →
  tally NR NH M1 m1 tot = tally NR NH M2 m2 tot.
Proof.
  intros Hm1 Hm2 Hco.
  pose proof (of_kind_partition NR NH M1 m1) as Hsum1.
  pose proof (of_kind_partition NR NH M2 m2) as Hsum2.
  rewrite (assignment_length _ _ Hm1) in Hsum1.
  rewrite (assignment_length _ _ Hm2) in Hsum2.
  pose proof (false_alarm_count NR NH M1 _ m1 Hm1) as Hfa1.
  pose proof (false_alarm_count NR NH M2 _ m2 Hm2) as Hfa2.
  pose proof (missed_detection_count NR NH M1 m1 Hm1) as Hmd1.
  pose proof (missed_detection_count NR NH M2 m2 Hm2) as Hmd2.
  unfold tally. f_equal; lia.
Qed.

(** The counts in closed form, from the number of correct pairs. *)
Lemma tally_closed NR NH M m tot :
  assignment (NR `max` NH) m →
  tally NR NH M m tot
  = counts_of (length (of_kind NR NH M Correct m))
              (NR `min` NH - length (of_kind NR NH M Correct m))
              (NR - NH) (NH - NR) tot.
Proof.
  intros Hm.
  pose proof (of_kind_partition NR NH M m) as Hsum.
  rewrite (assignment_length _ _ Hm) in Hsum.
  pose proof (false_alarm_count NR NH M _ m Hm) as Hfa.
  pose proof (missed_detection_count NR NH M m Hm) as Hmd.
  unfold tally. f_equal; lia.
Qed.

Lemma score_mono (sm1 sm2 : label → label → bool) rlabels hlabels m :
  (∀ a b, a ∈ rlabels → b ∈ hlabels → sm1 a b = true → sm2 a b = true) →
  score sm1 rlabels hlabels m ≤ score sm2 rlabels hlabels m.
Proof.
  intros Hsm. unfold score. apply length_filter_mono, Forall_forall.
  intros p _. unfold match_at.
  destruct (rlabels !! p.1) as [a|] eqn:Ha; [|done].
  destruct (hlabels !! p.2) as [b|] eqn:Hb; [|done].
  apply Hsm; by eapply list_elem_of_lookup_2.
Qed.

(** X7. A more permissive predicate never lowers the number of correct
    pairs and never raises the number of confusions; missed detections,
    false alarms and total do not depend on the predicate. *)
Theorem permissive_predicate_more_correct
    (sm1 sm2 : label → label → bool)
    (compute1 compute2 : list (list Z) → result (list (nat * nat)))
    (rlabels hlabels : list label) :
  (∀ a b, sm1 a b = true → sm2 a b = true) →
  solver_contract compute1 →
  solver_contract compute2 →
  ∃ details1 details2 co1 co2,
    __call__ sm1 compute1 (of_list rlabels) (of_list hlabels)
    = Ok (counts_of co1 (length rlabels `min` length hlabels - co1)
            (length rlabels - length hlabels) (length hlabels - length rlabels)
            (length rlabels), details1)
    ∧ __call__ sm2 compute2 (of_list rlabels) (of_list hlabels)
      = Ok (counts_of co2 (length rlabels `min` length hlabels - co2)
              (length rlabels - length hlabels) (length hlabels - length rlabels)
              (length rlabels), details2)
    ∧ co1 ≤ co2
    ∧ co2 ≤ length rlabels `min` length hlabels.
Proof.
  intros Hsm Hsolver1 Hsolver2.
  destruct (call_result sm1 compute1 Hsolver1 rlabels hlabels)
    as (m1 & Hopt1 & Hcall1).
  destruct (call_result sm2 compute2 Hsolver2 rlabels hlabels)
    as (m2 & Hopt2 & Hcall2).
  set (NR := length rlabels) in *. set (NH := length hlabels) in *.
  pose proof (proj1 Hopt1) as Hm1. pose proof (proj1 Hopt2) as Hm2.
  rewrite tally_closed in Hcall1, Hcall2 by done.
  eexists _, _, _, _. split; [exact Hcall1|]. split; [exact Hcall2|]. split.
  - unfold NR, NH. rewrite !correct_count_score by (by apply assignment_bounds).
    etrans; [apply (score_mono sm1 sm2); eauto|].
    by eapply optimal_max_score.
  - set (M2 := match_matrix sm2 (NR `max` NH) rlabels hlabels).
    pose proof (of_kind_partition NR NH M2 m2) as Hsum.
    rewrite (assignment_length _ _ Hm2) in Hsum.
    pose proof (false_alarm_count NR NH M2 _ m2 Hm2) as Hfa.
    pose proof (missed_detection_count NR NH M2 m2 Hm2) as Hmd.
    lia.
Qed.

Lemma permissive_predicate_more_correct_witness :
  (∀ a b, LabelMatcher.match_ a b = true →
          LabelMatcherWithUnknownSupport.match_ a b = true)
  ∧ solver_contract brute_force
  ∧ solver_contract brute_force_rev
  ∧ ∃ details1 details2 co1 co2,
      __call__ LabelMatcher.match_ brute_force
        (of_list [Unknown 1; Name "A"]) (of_list [Name "A"; Unknown 2; Name "B"])
      = Ok (counts_of co1 (2 `min` 3 - co1) (2 - 3) (3 - 2) 2, details1)
      ∧ __call__ LabelMatcherWithUnknownSupport.match_ brute_force_rev
          (of_list [Unknown 1; Name "A"]) (of_list [Name "A"; Unknown 2; Name "B"])
        = Ok (counts_of co2 (2 `min` 3 - co2) (2 - 3) (3 - 2) 2, details2)
      ∧ co1 ≤ co2
      ∧ co2 ≤ 2 `min` 3.
Proof.
  assert (∀ a b, LabelMatcher.match_ a b = true →
                 LabelMatcherWithUnknownSupport.match_ a b = true) as Himp.
  { intros a b Hab.
    unfold LabelMatcherWithUnknownSupport.match_, UnknownSupportMixin.match_.
    by destruct (isinstance_Unknown a && isinstance_Unknown b). }
  split; [exact Himp|].
  split; [apply brute_force_contract|].
  split; [apply brute_force_rev_contract|].
  apply (permissive_predicate_more_correct
           LabelMatcher.match_ LabelMatcherWithUnknownSupport.match_
           brute_force brute_force_rev
           [Unknown 1; Name "A"] [Name "A"; Unknown 2; Name "B"]).
  - exact Himp.
  - apply brute_force_contract.
  - apply brute_force_rev_contract.
Defined.

(** ** Exchanging reference and hypothesis *)

Lemma fst_prod_swap {X Y} (m : list (X * Y)) : (prod_swap <$> m).*1 = m.*2.
Proof. induction m as [|[x y] m IH]; [done|]. by rewrite !fmap_cons, IH. Qed.

Lemma snd_prod_swap {X Y} (m : list (X * Y)) : (prod_swap <$> m).*2 = m.*1.
Proof. induction m as [|[x y] m IH]; [done|]. by rewrite !fmap_cons, IH. Qed.

Lemma assignment_swap n m : assignment n m → assignment n (prod_swap <$> m).
Proof.
  intros [Hrows Hcols]. split.
  - by rewrite fst_prod_swap.
  - by rewrite snd_prod_swap.
Qed.

Lemma score_swap (self_match : label → label → bool) rlabels hlabels m :
  (∀ a b, self_match a b = self_match b a) →
  score self_match hlabels rlabels (prod_swap <$> m)
  = score self_match rlabels hlabels m.
Proof.
  intros Hsym. unfold score. rewrite length_filter_fmap. f_equal.
  apply list_filter_iff. intros [r h]. simpl. unfold match_at.
  destruct (rlabels !! r), (hlabels !! h); try done. by rewrite Hsym.
Qed.

(** X8. With a symmetric predicate, exchanging the reference and the
    hypothesis sequences keeps the numbers of correct pairs and of
    confusions and exchanges missed detections with false alarms; total
    becomes the length of the new reference. *)
Theorem exchange_reference_hypothesis
    (self_match : label → label → bool)
    (compute1 compute2 : list (list Z) → result (list (nat * nat)))
    (rlabels hlabels : list label) :
  (∀ a b, self_match a b = self_match b a) →
  solver_contract compute1 →
  solver_contract compute2 →
  ∃ details1 details2 co cf md fa,
    __call__ self_match compute1 (of_list rlabels) (of_list hlabels)
    = Ok (counts_of co cf md fa (length rlabels), details1)
    ∧ __call__ self_match compute2 (of_list hlabels) (of_list rlabels)
      = Ok (counts_of co cf fa md (length hlabels), details2).
Proof.
  intros Hsym Hsolver1 Hsolver2.
  destruct (call_result self_match compute1 Hsolver1 rlabels hlabels)
    as (m1 & Hopt1 & Hcall1).
  destruct (call_result self_match compute2 Hsolver2 hlabels rlabels)
    as (m2 & Hopt2 & Hcall2).
  set (NR := length rlabels) in *. set (NH := length hlabels) in *.
  pose proof (proj1 Hopt1) as Hm1. pose proof (proj1 Hopt2) as Hm2.
  rewrite tally_closed in Hcall1, Hcall2 by done.
  assert (length (of_kind NH NR (match_matrix self_match (NH `max` NR) hlabels rlabels)
                    Correct m2)
          = length (of_kind NR NH (match_matrix self_match (NR `max` NH) rlabels hlabels)
                      Correct m1)) as Hco.
  { unfold NR, NH. rewrite !correct_count_score by (by apply assignment_bounds).
    apply Nat.le_antisymm.
    - rewrite <-(score_swap self_match hlabels rlabels m2) by done.
      eapply optimal_max_score; [exact Hopt1|].
      apply assignment_swap. by rewrite Nat.max_comm.
    - rewrite <-(score_swap self_match rlabels hlabels m1) by done.
      eapply optimal_max_score; [exact Hopt2|].
      apply assignment_swap. by rewrite Nat.max_comm. }
  rewrite Hco, (Nat.min_comm NH NR) in Hcall2.
  eexists _, _, _, _, _, _. split; [exact Hcall1|exact Hcall2].
Qed.

Lemma exchange_reference_hypothesis_witness :
  (∀ a b, LabelMatcherWithUnknownSupport.match_ a b
          = LabelMatcherWithUnknownSupport.match_ b a)
  ∧ solver_contract brute_force
  ∧ solver_contract brute_force_rev
  ∧ ∃ details1 details2 co cf md fa,
      __call__ LabelMatcherWithUnknownSupport.match_ brute_force
        (of_list [Unknown 1; Name "A"; Name "B"]) (of_list [Name "C"; Unknown 2])
      = Ok (counts_of co cf md fa 3, details1)
      ∧ __call__ LabelMatcherWithUnknownSupport.match_ brute_force_rev
          (of_list [Name "C"; Unknown 2]) (of_list [Unknown 1; Name "A"; Name "B"])
        = Ok (counts_of co cf fa md 2, details2).
Proof.
  assert (∀ a b, LabelMatcherWithUnknownSupport.match_ a b
                 = LabelMatcherWithUnknownSupport.match_ b a) as Hsym.
  { intros [s|i] [t|j]; try done. apply bool_decide_ext. split; by intros ->. }
  split; [exact Hsym|].
  split; [apply brute_force_contract|].
  split; [apply brute_force_rev_contract|].
  apply (exchange_reference_hypothesis LabelMatcherWithUnknownSupport.match_
           brute_force brute_force_rev
           [Unknown 1; Name "A"; Name "B"] [Name "C"; Unknown 2]).
  - exact Hsym.
  - apply brute_force_contract.
  - apply brute_force_rev_contract.
Defined.

(** ** Extreme cases *)

Lemma assignment_identity n : assignment n ((λ i, (i, i)) <$> seq 0 n).
Proof.
  split; rewrite <-list_fmap_compose; by rewrite list_fmap_id.
Qed.

(** X9. A sequence compared with itself under a predicate that matches every
    one of its labels with itself: all pairs are correct, nothing else is
    counted, duplicates included. *)
Theorem identical_sequences_all_correct
    (self_match : label → label → bool)
    (compute : list (list Z) → result (list (nat * nat)))
    (labels : list label) :
  (∀ a, a ∈ labels → self_match a a = true) →
  solver_contract compute →
  ∃ details,
    __call__ self_match compute (of_list labels) (of_list labels)
    = Ok (counts_of (length labels) 0 0 0 (length labels), details).
Proof.
  intros Hrefl Hsolver.
  destruct (call_result self_match compute Hsolver labels labels)
    as (m & Hopt & Hcall).
  set (n := length labels) in *. pose proof (proj1 Hopt) as Hm.
  rewrite tally_closed in Hcall by done.
  set (M := match_matrix self_match (n `max` n) labels labels) in *.
  assert (n ≤ length (of_kind n n M Correct m)) as Hge.
  { unfold M, n. rewrite correct_count_score by (by apply assignment_bounds).
    etrans; [|eapply optimal_max_score; [exact Hopt|]];
      [|fold n; rewrite Nat.max_id; apply assignment_identity].
    unfold score. rewrite filter_all.
    - by rewrite length_fmap, length_seq.
    - apply Forall_fmap, Forall_forall. intros i [_ Hi]%elem_of_seq. simpl.
      unfold match_at.
      destruct (lookup_lt_is_Some_2 labels i) as [a Ha]; [fold n; lia|].
      rewrite Ha. apply Hrefl. by eapply list_elem_of_lookup_2. }
  assert (length (of_kind n n M Correct m) ≤ n) as Hle.
  { pose proof (of_kind_partition n n M m) as Hsum.
    rewrite (assignment_length _ _ Hm) in Hsum. lia. }
  replace (length (of_kind n n M Correct m)) with n in Hcall by lia.
  replace (n `min` n - n) with 0 in Hcall by lia.
  replace (n - n) with 0 in Hcall by lia.
  eexists. exact Hcall.
Qed.

Lemma identical_sequences_all_correct_witness :
  (∀ a, a ∈ [Name "A"; Unknown 1; Name "A"] → LabelMatcher.match_ a a = true)
  ∧ solver_contract brute_force
  ∧ ∃ details,
      __call__ LabelMatcher.match_ brute_force
        (of_list [Name "A"; Unknown 1; Name "A"])
        (of_list [Name "A"; Unknown 1; Name "A"])
      = Ok (counts_of 3 0 0 0 3, details).
Proof.
  assert (∀ a, a ∈ [Name "A"; Unknown 1; Name "A"] → LabelMatcher.match_ a a = true)
    as Hrefl by (intros a _; by apply py_eq_spec).
  split; [exact Hrefl|]. split; [apply brute_force_contract|].
  apply (identical_sequences_all_correct LabelMatcher.match_ brute_force
           [Name "A"; Unknown 1; Name "A"]).
  - exact Hrefl.
  - apply brute_force_contract.
Defined.

(** X10. When no reference label matches any hypothesis label, nothing is
    correct: min(NR, NH) pairs are confusions and the surplus of the longer
    sequence is missed or falsely detected. *)
Theorem nothing_matches_all_confusion
    (self_match : label → label → bool)
    (compute : list (list Z) → result (list (nat * nat)))
    (rlabels hlabels : list label) :
  (∀ a b, a ∈ rlabels → b ∈ hlabels → self_match a b = false) →
  solver_contract compute →
  ∃ details,
    __call__ self_match compute (of_list rlabels) (of_list hlabels)
    = Ok (counts_of 0 (length rlabels `min` length hlabels)
            (length rlabels - length hlabels) (length hlabels - length rlabels)
            (length rlabels), details).
Proof.
  intros Hno Hsolver.
  destruct (call_result self_match compute Hsolver rlabels hlabels)
    as (m & [Hm _] & Hcall).
  set (NR := length rlabels) in *. set (NH := length hlabels) in *.
  rewrite tally_closed in Hcall by done.
  set (M := match_matrix self_match (NR `max` NH) rlabels hlabels) in *.
  assert (of_kind NR NH M Correct m = []) as Hco.
  { apply filter_none. eapply Forall_impl; [apply (assignment_bounds _ _ Hm)|].
    intros p [Hr Hh] Hk.
    pose proof (kind_of_lookups self_match rlabels hlabels p Hr Hh) as Hl.
    fold NR NH M in Hl. rewrite Hk in Hl.
    destruct Hl as (a & b & Ha & Hb & Hab).
    rewrite Hno in Hab by (by eapply list_elem_of_lookup_2). done. }
  rewrite Hco in Hcall. simpl in Hcall. rewrite Nat.sub_0_r in Hcall.
  eexists. exact Hcall.
Qed.

Lemma nothing_matches_all_confusion_witness :
  (∀ a b, a ∈ [Unknown 1; Unknown 2] → b ∈ [Unknown 3; Name "A"; Unknown 4] →
          LabelMatcher.match_ a b = false)
  ∧ solver_contract brute_force
  ∧ ∃ details,
      __call__ LabelMatcher.match_ brute_force
        (of_list [Unknown 1; Unknown 2]) (of_list [Unknown 3; Name "A"; Unknown 4])
      = Ok (counts_of 0 (2 `min` 3) (2 - 3) (3 - 2) 2, details).
Proof.
  assert (∀ a b, a ∈ [Unknown 1; Unknown 2] →
                 b ∈ [Unknown 3; Name "A"; Unknown 4] →
                 LabelMatcher.match_ a b = false) as Hno.
  { intros a b Ha Hb.
    repeat (apply elem_of_cons in Ha as [->|Ha]);
      try (by apply elem_of_nil in Ha);
      repeat (apply elem_of_cons in Hb as [->|Hb]);
      try (by apply elem_of_nil in Hb); done. }
  split; [exact Hno|]. split; [apply brute_force_contract|].
  apply (nothing_matches_all_confusion LabelMatcher.match_ brute_force
           [Unknown 1; Unknown 2] [Unknown 3; Name "A"; Unknown 4]).
  - exact Hno.
  - apply brute_force_contract.
Defined.

(** X11. When every reference label matches every hypothesis label, as with
    unknown support on sequences of Unknown placeholders only, min(NR, NH)
    pairs are correct and there is no confusion. *)
Theorem everything_matches_no_confusion
    (self_match : label → label → bool)
    (compute : list (list Z) → result (list (nat * nat)))
    (rlabels hlabels : list label) :
  (∀ a b, a ∈ rlabels → b ∈ hlabels → self_match a b = true) →
  solver_contract compute →
  ∃ details,
    __call__ self_match compute (of_list rlabels) (of_list hlabels)
    = Ok (counts_of (length rlabels `min` length hlabels) 0
            (length rlabels - length hlabels) (length hlabels - length rlabels)
            (length rlabels), details).
Proof.
  intros Hall Hsolver.
  destruct (call_result self_match compute Hsolver rlabels hlabels)
    as (m & [Hm _] & Hcall).
  set (NR := length rlabels) in *. set (NH := length hlabels) in *.
  set (M := match_matrix self_match (NR `max` NH) rlabels hlabels) in *.
  assert (of_kind NR NH M Confusion m = []) as Hcf.
  { apply filter_none. eapply Forall_impl; [apply (assignment_bounds _ _ Hm)|].
    intros p [Hr Hh] Hk.
    pose proof (kind_of_lookups self_match rlabels hlabels p Hr Hh) as Hl.
    fold NR NH M in Hl. rewrite Hk in Hl.
    destruct Hl as (a & b & Ha & Hb & Hab).
    rewrite Hall in Hab by (by eapply list_elem_of_lookup_2). done. }
  pose proof (of_kind_partition NR NH M m) as Hsum.
  rewrite (assignment_length _ _ Hm), Hcf in Hsum. simpl in Hsum.
  pose proof (false_alarm_count NR NH M _ m Hm) as Hfa.
  pose proof (missed_detection_count NR NH M m Hm) as Hmd.
  rewrite tally_closed in Hcall by done.
  replace (length (of_kind NR NH M Correct m)) with (NR `min` NH) in Hcall by lia.
  rewrite Nat.sub_diag in Hcall.
  eexists. exact Hcall.
Qed.

Lemma everything_matches_no_confusion_witness :
  (∀ a b, a ∈ [Unknown 1; Unknown 2] → b ∈ [Unknown 3; Unknown 4; Unknown 5] →
          LabelMatcherWithUnknownSupport.match_ a b = true)
  ∧ solver_contract brute_force
  ∧ ∃ details,
      __call__ LabelMatcherWithUnknownSupport.match_ brute_force
        (of_list [Unknown 1; Unknown 2]) (of_list [Unknown 3; Unknown 4; Unknown 5])
      = Ok (counts_of (2 `min` 3) 0 (2 - 3) (3 - 2) 2, details).
Proof.
  assert (∀ a b, a ∈ [Unknown 1; Unknown 2] →
                 b ∈ [Unknown 3; Unknown 4; Unknown 5] →
                 LabelMatcherWithUnknownSupport.match_ a b = true) as Hall.
  { intros a b Ha Hb.
    repeat (apply elem_of_cons in Ha as [->|Ha]);
      try (by apply elem_of_nil in Ha);
      repeat (apply elem_of_cons in Hb as [->|Hb]);
      try (by apply elem_of_nil in Hb); done. }
  split; [exact Hall|]. split; [apply brute_force_contract|].
  apply (everything_matches_no_confusion LabelMatcherWithUnknownSupport.match_
           brute_force [Unknown 1; Unknown 2] [Unknown 3; Unknown 4; Unknown 5]).
  - exact Hall.
  - apply brute_force_contract.
Defined.

(** ** The order of the labels *)

(** A permutation of a sequence is a renumbering of the padded indices. *)
Lemma Permutation_relabel (l l' : list label) N :
  l ≡ₚ l' → length l ≤ N →
  ∃ g : nat → nat, g <$> seq 0 N ≡ₚ seq 0 N ∧ ∀ i, l' !! g i = l !! i.
Proof.
  intros Hperm Hlen.
  apply Permutation_inj in Hperm as (Hlen' & f & Hinj & Hf).
  assert (∀ i, i < length l → f i < length l) as Hrange.
  { intros i Hi. rewrite Hlen'. apply lookup_lt_is_Some. rewrite <-Hf.
    by apply lookup_lt_is_Some. }
  set (g := λ i, if decide (i < length l) then f i else i).
  assert (∀ i, i < N → g i < N) as HgN.
  { intros i Hi. unfold g. case_decide; [|done].
    pose proof (Hrange i). lia. }
  exists g. split.
  - apply submseteq_length_Permutation; [|by rewrite length_fmap].
    apply NoDup_submseteq.
    + apply NoDup_fmap_2_strong; [|apply NoDup_seq].
      intros x y _ _. unfold g. repeat case_decide; intros Hxy.
      * by apply Hinj.
      * pose proof (Hrange x). lia.
      * pose proof (Hrange y). lia.
      * done.
    + intros x (i & -> & [_ Hi]%elem_of_seq)%list_elem_of_fmap.
      apply elem_of_seq. pose proof (HgN i). lia.
  - intros i. unfold g. case_decide; [by rewrite Hf|].
    rewrite !(proj2 (lookup_ge_None _ _)); [done|lia|lia].
Qed.

Lemma score_relabel (self_match : label → label → bool)
    rlabels rlabels' hlabels hlabels' N m :
  rlabels ≡ₚ rlabels' → hlabels ≡ₚ hlabels' →
  length rlabels ≤ N → length hlabels ≤ N →
  assignment N m →
  ∃ m', assignment N m'
      ∧ score self_match rlabels' hlabels' m' = score self_match rlabels hlabels m.
Proof.
  intros Hr Hh HNR HNH [Hrows Hcols].
  destruct (Permutation_relabel _ _ N Hr HNR) as (g & Hg & Hgl).
  destruct (Permutation_relabel _ _ N Hh HNH) as (g' & Hg' & Hgl').
  exists (prod_map g g' <$> m). split; [split|].
  - rewrite <-list_fmap_compose.
    trans (g <$> m.*1); [by rewrite <-list_fmap_compose|].
    by rewrite Hrows.
  - rewrite <-list_fmap_compose.
    trans (g' <$> m.*2); [by rewrite <-list_fmap_compose|].
    by rewrite Hcols.
  - unfold score. rewrite length_filter_fmap. f_equal.
    apply list_filter_iff. intros [r h]. simpl. unfold match_at.
    by rewrite Hgl, Hgl'.
Qed.

(** X12. The counts do not depend on the order of the labels: permuting the
    reference sequence, the hypothesis sequence or both leaves the counts
    dictionary unchanged. *)
Theorem counts_order_insensitive
    (self_match : label → label → bool)
    (compute1 compute2 : list (list Z) → result (list (nat * nat)))
    (rlabels rlabels' hlabels hlabels' : list label) :
  rlabels ≡ₚ rlabels' → hlabels ≡ₚ hlabels' →
  solver_contract compute1 →
  solver_contract compute2 →
  ∃ counts details1 details2,
    __call__ self_match compute1 (of_list rlabels) (of_list hlabels)
    = Ok (counts, details1)
    ∧ __call__ self_match compute2 (of_list rlabels') (of_list hlabels')
      = Ok (counts, details2).
Proof.
  intros Hr Hh Hsolver1 Hsolver2.
  destruct (call_result self_match compute1 Hsolver1 rlabels hlabels)
    as (m1 & Hopt1 & Hcall1).
  destruct (call_result self_match compute2 Hsolver2 rlabels' hlabels')
    as (m2 & Hopt2 & Hcall2).
  rewrite <-(Permutation_length Hr), <-(Permutation_length Hh) in Hopt2, Hcall2.
  set (NR := length rlabels) in *. set (NH := length hlabels) in *.
  pose proof (proj1 Hopt1) as Hm1. pose proof (proj1 Hopt2) as Hm2.
  eexists _, _, _. split; [exact Hcall1|]. rewrite Hcall2. do 2 f_equal.
  apply tally_eq; [done..|].
  pose proof (correct_count_score self_match rlabels' hlabels' (NR `max` NH) m2
                (assignment_bounds _ _ Hm2)) as Hs2.
  rewrite <-(Permutation_length Hr), <-(Permutation_length Hh) in Hs2.
  fold NR NH in Hs2. rewrite Hs2.
  unfold NR, NH. rewrite correct_count_score by (by apply assignment_bounds).
  fold NR NH. apply Nat.le_antisymm.
  - destruct (score_relabel self_match rlabels' rlabels hlabels' hlabels
                (NR `max` NH) m2) as (m' & Hm' & <-);
      [done|done|rewrite <-(Permutation_length Hr); fold NR; lia
      |rewrite <-(Permutation_length Hh); fold NH; lia|done|].
    by eapply optimal_max_score.
  - destruct (score_relabel self_match rlabels rlabels' hlabels hlabels'
                (NR `max` NH) m1) as (m' & Hm' & <-);
      [done|done|fold NR; lia|fold NH; lia|done|].
    by eapply optimal_max_score.
Qed.

Lemma counts_order_insensitive_witness :
  [Name "A"; Name "B"; Name "C"] ≡ₚ [Name "C"; Name "A"; Name "B"]
  ∧ [Name "B"; Name "D"] ≡ₚ [Name "D"; Name "B"]
  ∧ solver_contract brute_force
  ∧ solver_contract brute_force_rev
  ∧ ∃ counts details1 details2,
      __call__ LabelMatcher.match_ brute_force
        (of_list [Name "A"; Name "B"; Name "C"]) (of_list [Name "B"; Name "D"])
      = Ok (counts, details1)
      ∧ __call__ LabelMatcher.match_ brute_force_rev
          (of_list [Name "C"; Name "A"; Name "B"]) (of_list [Name "D"; Name "B"])
        = Ok (counts, details2).
Proof.
  assert ([Name "A"; Name "B"; Name "C"] ≡ₚ [Name "C"; Name "A"; Name "B"]) as Hr.
  { change ([Name "A"; Name "B"] ++ [Name "C"] ≡ₚ [Name "C"] ++ [Name "A"; Name "B"]).
    apply Permutation_app_comm. }
  assert ([Name "B"; Name "D"] ≡ₚ [Name "D"; Name "B"]) as Hh
    by apply Permutation_swap.
  split; [exact Hr|]. split; [exact Hh|].
  split; [apply brute_force_contract|].
  split; [apply brute_force_rev_contract|].
  apply (counts_order_insensitive LabelMatcher.match_ brute_force brute_force_rev
           [Name "A"; Name "B"; Name "C"] [Name "C"; Name "A"; Name "B"]
           [Name "B"; Name "D"] [Name "D"; Name "B"]).
  - exact Hr.
  - exact Hh.
  - apply brute_force_contract.
  - apply brute_force_rev_contract.
Defined.

(** ** Whatever the solver and the arguments *)

Section ClassifySound.
Variables (NR NH : nat) (rlabels hlabels : list label) (M : list (list bool)).

(** One iteration of the loop on matches, when it does not raise, files the
    pair under its kind; nothing is assumed on the pair or on the matrix. *)
Lemma classify_sound pre p tot st :
  classify NR NH rlabels hlabels M
    (tally NR NH M pre tot, listing NR NH M rlabels hlabels pre) p = Ok st →
  st = (tally NR NH M (pre ++ [p]) tot, listing NR NH M rlabels hlabels (pre ++ [p])).
Proof.
  destruct p as [r h]. unfold tally, listing. rewrite !of_kind_snoc.
  unfold classify, getitem2, getitem.
  destruct (decide (NR ≤ r)) as [HrNR|HrNR].
  { assert (kind_of NR NH M (r, h) = FalseAlarm) as ->
      by (unfold kind_of; simpl; by rewrite decide_True).
    rewrite iadd_false_alarm. simpl.
    destruct (hlabels !! h) as [y|] eqn:Hy; [|done]. simpl.
    rewrite append_false_alarm. simpl. intros [= <-].
    rewrite !app_nil_r, length_app, fmap_app. simpl.
    by rewrite (list_lookup_total_correct _ _ _ Hy). }
  destruct (decide (NH ≤ h)) as [HhNH|HhNH].
  { assert (kind_of NR NH M (r, h) = MissedDetection) as ->
      by (unfold kind_of; simpl; by rewrite decide_False, decide_True).
    rewrite iadd_missed_detection. simpl.
    destruct (rlabels !! r) as [x|] eqn:Hx; [|done]. simpl.
    rewrite append_missed_detection. simpl. intros [= <-].
    rewrite !app_nil_r, length_app, fmap_app. simpl.
    by rewrite (list_lookup_total_correct _ _ _ Hx). }
  destruct (M !! r) as [row|] eqn:Hrow; [|done]. simpl.
  destruct (row !! h) as [b|] eqn:Hb; [|done]. simpl.
  assert (M !! r ≫= (.!! h) = Some b) as Hentry by (by rewrite Hrow).
  destruct b.
  - assert (kind_of NR NH M (r, h) = Correct) as ->
      by (unfold kind_of; simpl; rewrite Hentry;
          rewrite (decide_False (P := NR ≤ r)), (decide_False (P := NH ≤ h)) by done;
          done).
    rewrite iadd_correct. simpl.
    destruct (rlabels !! r) as [x|] eqn:Hx; [|done]. simpl.
    destruct (hlabels !! h) as [y|] eqn:Hy; [|done]. simpl.
    rewrite append_correct. simpl. intros [= <-].
    rewrite !app_nil_r, length_app, fmap_app. simpl.
    by rewrite (list_lookup_total_correct _ _ _ Hx),
      (list_lookup_total_correct _ _ _ Hy).
  - assert (kind_of NR NH M (r, h) = Confusion) as ->
      by (unfold kind_of; simpl; rewrite Hentry;
          rewrite (decide_False (P := NR ≤ r)), (decide_False (P := NH ≤ h)) by done;
          done).
    rewrite iadd_confusion. simpl.
    destruct (rlabels !! r) as [x|] eqn:Hx; [|done]. simpl.
    destruct (hlabels !! h) as [y|] eqn:Hy; [|done]. simpl.
    rewrite append_confusion. simpl. intros [= <-].
    rewrite !app_nil_r, length_app, fmap_app. simpl.
    by rewrite (list_lookup_total_correct _ _ _ Hx),
      (list_lookup_total_correct _ _ _ Hy).
Qed.

Lemma classify_loop_sound m pre tot st :
  foldM (classify NR NH rlabels hlabels M)
    (tally NR NH M pre tot, listing NR NH M rlabels hlabels pre) m = Ok st →
  st = (tally NR NH M (pre ++ m) tot, listing NR NH M rlabels hlabels (pre ++ m)).
Proof.
  revert pre. induction m as [|p m IH]; intros pre.
  - simpl. rewrite app_nil_r. by intros [= <-].
  - change (foldM (classify NR NH rlabels hlabels M)
              (tally NR NH M pre tot, listing NR NH M rlabels hlabels pre) (p :: m))
      with (classify NR NH rlabels hlabels M
              (tally NR NH M pre tot, listing NR NH M rlabels hlabels pre) p
            ≫= λ s', foldM (classify NR NH rlabels hlabels M) s' m).
    destruct (classify NR NH rlabels hlabels M
                (tally NR NH M pre tot, listing NR NH M rlabels hlabels pre) p)
      as [st'|] eqn:Hstep.
    + apply classify_sound in Hstep as ->. simpl. intros Hloop.
      apply IH in Hloop. by rewrite <-app_assoc in Hloop.
    + intros Hloop. simpl in Hloop. done.
Qed.
End ClassifySound.

(** X13. Whenever a call returns, on any two arguments and with any solver,
    also one that does not return a one-to-one pairing, each of the four
    counts is the length of the detail list under the same key, and total is
    the length reported by the reference argument. *)
Theorem returned_counts_consistent
    (self_match : label → label → bool)
    (compute : list (list Z) → result (list (nat * nat)))
    (rlabels hlabels : pyobj)
    (counts : gmap string nat) (details : gmap string (list detail)) :
  __call__ self_match compute rlabels hlabels = Ok (counts, details) →
  (∀ k, ∃ l, details !! key k = Some l ∧ counts !! key k = Some (length l))
  ∧ ∃ NR, py_len rlabels = Ok NR ∧ counts !! MATCH_TOTAL = Some NR.
Proof.
  unfold __call__, len, list_.
  destruct (py_len rlabels) as [NR|]; [|done].
  destruct (py_len hlabels) as [NH|]; [|done]. simpl.
  case_decide as HN.
  { intros [= <- <-]. split.
    - intros k. exists []. by destruct k.
    - exists NR. split; [done|]. by replace NR with 0 by lia. }
  destruct (py_list rlabels) as [rl|]; [|done].
  destruct (py_list hlabels) as [hl|]; [|done]. simpl.
  destruct (fill self_match rl hl (zeros (NR `max` NH))) as [M|]; [|done]. simpl.
  destruct (compute (one_minus M)) as [m|]; [|done]. simpl.
  destruct (foldM _ _ m) as [st|] eqn:Hloop; [|done].
  apply (classify_loop_sound NR NH rl hl M m [] 0) in Hloop as ->. simpl.
  unfold tally. rewrite iadd_total. simpl. intros [= <- <-]. split.
  - intros k. unfold listing. rewrite counts_of_lookup, details_of_lookup.
    eexists. split; [done|]. destruct k; by rewrite length_fmap.
  - exists NR. split; [done|]. by rewrite counts_of_total.
Qed.

Lemma returned_counts_consistent_witness :
  __call__ LabelMatcher.match_ (λ _, Ok [(0, 0); (0, 0)])
    (of_list [Name "A"; Name "B"]) (of_list [Name "A"])
  = Ok (counts_of 2 0 0 0 2,
        details_of [Pair (Name "A") (Name "A"); Pair (Name "A") (Name "A")] [] [] [])
  ∧ (∀ k, ∃ l,
       details_of [Pair (Name "A") (Name "A"); Pair (Name "A") (Name "A")] [] [] []
         !! key k = Some l
       ∧ counts_of 2 0 0 0 2 !! key k = Some (length l))
  ∧ ∃ NR, py_len (of_list [Name "A"; Name "B"]) = Ok NR
          ∧ counts_of 2 0 0 0 2 !! MATCH_TOTAL = Some NR.
Proof.
  assert (__call__ LabelMatcher.match_ (λ _, Ok [(0, 0); (0, 0)])
            (of_list [Name "A"; Name "B"]) (of_list [Name "A"])
          = Ok (counts_of 2 0 0 0 2,
                details_of [Pair (Name "A") (Name "A"); Pair (Name "A") (Name "A")]
                  [] [] [])) as Hcall by (vm_compute; reflexivity).
  split; [exact Hcall|].
  apply (returned_counts_consistent LabelMatcher.match_ (λ _, Ok [(0, 0); (0, 0)])
           (of_list [Name "A"; Name "B"]) (of_list [Name "A"]) _ _ Hcall).
Defined.

(** ** The correct count in closed form *)

Lemma elements_list_to_set_disj (l : list label) :
  elements (list_to_set_disj l : gmultiset label) ≡ₚ l.
Proof.
  induction l as [|a l IH];
    [by rewrite list_to_set_disj_nil, gmultiset_elements_empty|].
  rewrite list_to_set_disj_cons, gmultiset_elements_disj_union,
    gmultiset_elements_singleton. simpl. by rewrite IH.
Qed.

Lemma size_list_to_set_disj (l : list label) :
  size (list_to_set_disj l : gmultiset label) = length l.
Proof.
  induction l as [|a l IH]; [done|].
  rewrite list_to_set_disj_cons, gmultiset_size_disj_union,
    gmultiset_size_singleton. simpl. by rewrite IH.
Qed.

Lemma submseteq_list_to_set_disj (l k : list label) :
  l ⊆+ k → (list_to_set_disj l : gmultiset label) ⊆ list_to_set_disj k.
Proof.
  intros [k' ->]%submseteq_Permutation. rewrite list_to_set_disj_app.
  multiset_solver.
Qed.

Lemma gmultiset_intersection_subseteq_left (X Y : gmultiset label) : X ∩ Y ⊆ X.
Proof. multiset_solver. Qed.

Lemma gmultiset_intersection_subseteq_right (X Y : gmultiset label) : X ∩ Y ⊆ Y.
Proof. multiset_solver. Qed.

Lemma gmultiset_intersection_greatest (X Y Z : gmultiset label) :
  Z ⊆ X → Z ⊆ Y → Z ⊆ X ∩ Y.
Proof. multiset_solver. Qed.

Section Common.
Variables (rlabels hlabels : list label).
Let NR := length rlabels.
Let NH := length hlabels.
Let N := NR `max` NH.

(** No pairing has more equal pairs than the sequences have common labels. *)
Lemma score_le_common m :
  assignment N m → score LabelMatcher.match_ rlabels hlabels m ≤ common rlabels hlabels.
Proof.
  intros Hm. unfold score, common.
  set (P := λ p : nat * nat,
              match_at LabelMatcher.match_ rlabels hlabels p.1 p.2 = true).
  set (L := (λ p : nat * nat, rlabels !!! p.1) <$> filter P m).
  assert (L = (λ p : nat * nat, hlabels !!! p.2) <$> filter P m) as HL.
  { unfold L. apply list_fmap_ext. intros i p Hp%list_elem_of_lookup_2.
    apply list_elem_of_filter in Hp as [Hp _].
    apply match_at_spec in Hp as (_ & _ & a & b & Ha & Hb & Hab).
    apply py_eq_spec in Hab as ->.
    by rewrite (list_lookup_total_correct _ _ _ Ha),
      (list_lookup_total_correct _ _ _ Hb). }
  assert (L ⊆+ rlabels) as Hr.
  { rewrite <-(assignment_rows_labels rlabels N m Hm) by (unfold N; fold NR; lia).
    unfold L. apply fmap_submseteq, sublist_submseteq.
    rewrite <-(list_filter_filter_l P (λ p, p.1 < length rlabels)).
    - apply sublist_filter.
    - intros p Hp. by apply match_at_bounds in Hp as [? _]. }
  assert (L ⊆+ hlabels) as Hh.
  { rewrite <-(assignment_cols_labels hlabels N m Hm) by (unfold N; fold NH; lia).
    rewrite HL. apply fmap_submseteq, sublist_submseteq.
    rewrite <-(list_filter_filter_l P (λ p, p.2 < length hlabels)).
    - apply sublist_filter.
    - intros p Hp. by apply match_at_bounds in Hp as [_ ?]. }
  apply submseteq_list_to_set_disj in Hr, Hh.
  replace (length (filter P m)) with (size (list_to_set_disj L : gmultiset label))
    by (by rewrite size_list_to_set_disj; unfold L; rewrite length_fmap).
  by apply gmultiset_subseteq_size, gmultiset_intersection_greatest.
Qed.

(** Some pairing reaches that number: put the common labels first on both
    sides and pair equal positions. *)
Lemma common_reached :
  ∃ m, assignment N m
     ∧ common rlabels hlabels ≤ score LabelMatcher.match_ rlabels hlabels m.
Proof.
  set (X := list_to_set_disj rlabels : gmultiset label).
  set (Y := list_to_set_disj hlabels : gmultiset label).
  set (c := elements (X ∩ Y)).
  assert (c ⊆+ rlabels) as Hcr.
  { rewrite <-(elements_list_to_set_disj rlabels).
    apply gmultiset_elements_submseteq, gmultiset_intersection_subseteq_left. }
  assert (c ⊆+ hlabels) as Hch.
  { rewrite <-(elements_list_to_set_disj hlabels).
    apply gmultiset_elements_submseteq, gmultiset_intersection_subseteq_right. }
  apply submseteq_Permutation in Hcr as [rl0 Hr].
  apply submseteq_Permutation in Hch as [hl0 Hh].
  assert (length (c ++ rl0) = NR) as Hlr by (by rewrite <-Hr).
  assert (length (c ++ hl0) = NH) as Hlh by (by rewrite <-Hh).
  destruct (score_relabel LabelMatcher.match_ (c ++ rl0) rlabels (c ++ hl0) hlabels
              N ((λ i, (i, i)) <$> seq 0 N)) as (m & Hm & Hscore);
    [done|done|unfold N; lia|unfold N; lia|apply assignment_identity|].
  exists m. split; [done|]. rewrite Hscore. unfold common. fold X Y.
  change (size (X ∩ Y)) with (length c).
  rewrite length_app in Hlr.
  trans (length (filter (λ p : nat * nat, p.1 < length c)
                   ((λ i, (i, i)) <$> seq 0 N))).
  - rewrite length_filter_fmap. simpl. rewrite filter_seq_lt, length_seq.
    unfold N. lia.
  - unfold score. apply length_filter_mono, Forall_forall.
    intros [r h] (i & [= -> ->] & _)%list_elem_of_fmap. simpl. intros Hi.
    destruct (lookup_lt_is_Some_2 c i Hi) as [a Ha].
    unfold match_at. rewrite !lookup_app_l by done. rewrite Ha.
    by apply py_eq_spec.
Qed.
End Common.

(** X14. With the base predicate the number of correct pairs is the number
    of labels the two sequences have in common, repetitions counted (the
    size of the intersection of their multisets); the other counts
    follow. *)
Theorem base_correct_is_common
    (compute : list (list Z) → result (list (nat * nat)))
    (rlabels hlabels : list label) :
  solver_contract compute →
  ∃ details,
    __call__ LabelMatcher.match_ compute (of_list rlabels) (of_list hlabels)
    = Ok (counts_of (common rlabels hlabels)
            (length rlabels `min` length hlabels - common rlabels hlabels)
            (length rlabels - length hlabels) (length hlabels - length rlabels)
            (length rlabels), details).
Proof.
  intros Hsolver.
  destruct (call_result LabelMatcher.match_ compute Hsolver rlabels hlabels)
    as (m & Hopt & Hcall).
  pose proof (proj1 Hopt) as Hm.
  rewrite tally_closed in Hcall by done.
  rewrite correct_count_score in Hcall by (by apply assignment_bounds).
  destruct (common_reached rlabels hlabels) as (m' & Hm' & Hge).
  pose proof (optimal_max_score _ _ _ _ _ _ Hopt Hm') as Hmax.
  pose proof (score_le_common rlabels hlabels m Hm) as Hle.
  replace (score LabelMatcher.match_ rlabels hlabels m)
    with (common rlabels hlabels) in Hcall by lia.
  eexists. exact Hcall.
Qed.

Lemma base_correct_is_common_witness :
  solver_contract brute_force
  ∧ ∃ details,
      __call__ LabelMatcher.match_ brute_force
        (of_list [Name "A"; Name "B"; Name "A"; Name "C"])
        (of_list [Name "A"; Name "A"; Name "A"; Name "D"; Name "C"])
      = Ok (counts_of
              (common [Name "A"; Name "B"; Name "A"; Name "C"]
                 [Name "A"; Name "A"; Name "A"; Name "D"; Name "C"])
              (4 `min` 5
               - common [Name "A"; Name "B"; Name "A"; Name "C"]
                   [Name "A"; Name "A"; Name "A"; Name "D"; Name "C"])
              (4 - 5) (5 - 4) 4, details).
Proof.
  split; [apply brute_force_contract|].
  apply (base_correct_is_common brute_force
           [Name "A"; Name "B"; Name "A"; Name "C"]
           [Name "A"; Name "A"; Name "A"; Name "D"; Name "C"]).
  apply brute_force_contract.
Defined.

(** ** Unknown support as the base matcher on erased placeholders *)

Lemma unknown_match_erase a b :
  LabelMatcherWithUnknownSupport.match_ a b
  = LabelMatcher.match_ (erase_id a) (erase_id b).
Proof. by destruct a, b. Qed.

Lemma match_matrix_erase N rlabels hlabels :
  match_matrix LabelMatcherWithUnknownSupport.match_ N rlabels hlabels
  = match_matrix LabelMatcher.match_ N (erase_id <$> rlabels) (erase_id <$> hlabels).
Proof.
  apply mat_ext. intros r h _ _. unfold match_at. rewrite !list_lookup_fmap.
  destruct (rlabels !! r) as [a|]; [|done].
  destruct (hlabels !! h) as [b|]; [|done]. simpl.
  apply unknown_match_erase.
Qed.

(** X15. The counts of the matcher with unknown support are the counts of
    the base matcher on the same sequences with the instance number of every
    Unknown placeholder erased. *)
Theorem unknown_support_counts_as_erased
    (compute1 compute2 : list (list Z) → result (list (nat * nat)))
    (rlabels hlabels : list label) :
  solver_contract compute1 →
  solver_contract compute2 →
  ∃ counts details1 details2,
    __call__ LabelMatcherWithUnknownSupport.match_ compute1
      (of_list rlabels) (of_list hlabels)
    = Ok (counts, details1)
    ∧ __call__ LabelMatcher.match_ compute2
        (of_list (erase_id <$> rlabels)) (of_list (erase_id <$> hlabels))
      = Ok (counts, details2).
Proof.
  intros Hsolver1 Hsolver2.
  destruct (call_result LabelMatcherWithUnknownSupport.match_ compute1 Hsolver1
              rlabels hlabels) as (m1 & Hopt1 & Hcall1).
  destruct (call_result LabelMatcher.match_ compute2 Hsolver2
              (erase_id <$> rlabels) (erase_id <$> hlabels))
    as (m2 & Hopt2 & Hcall2).
  rewrite !length_fmap, <-match_matrix_erase in Hopt2, Hcall2.
  set (NR := length rlabels) in *. set (NH := length hlabels) in *.
  pose proof (proj1 Hopt1) as Hm1. pose proof (proj1 Hopt2) as Hm2.
  eexists _, _, _. split; [exact Hcall1|]. rewrite Hcall2. do 2 f_equal.
  apply tally_eq; [done..|].
  unfold NR, NH. rewrite !correct_count_score by (by apply assignment_bounds).
  apply Nat.le_antisymm; by eapply optimal_max_score.
Qed.

Lemma unknown_support_counts_as_erased_witness :
  solver_contract brute_force
  ∧ solver_contract brute_force_rev
  ∧ ∃ counts details1 details2,
      __call__ LabelMatcherWithUnknownSupport.match_ brute_force
        (of_list [Unknown 1; Name "A"; Unknown 2]) (of_list [Unknown 3; Name "B"])
      = Ok (counts, details1)
      ∧ __call__ LabelMatcher.match_ brute_force_rev
          (of_list (erase_id <$> [Unknown 1; Name "A"; Unknown 2]))
          (of_list (erase_id <$> [Unknown 3; Name "B"]))
        = Ok (counts, details2).
Proof.
  split; [apply brute_force_contract|].
  split; [apply brute_force_rev_contract|].
  apply (unknown_support_counts_as_erased brute_force brute_force_rev
           [Unknown 1; Name "A"; Unknown 2] [Unknown 3; Name "B"]).
  - apply brute_force_contract.
  - apply brute_force_rev_contract.
Defined.

(** ** The only ways a call on two lists can end *)

Section ClassifyTotal.
Variables (NR NH : nat) (rlabels hlabels : list label) (M : list (list bool)).

(** One iteration either files the pair or raises [IndexError]; the
    dictionaries always hold the keys it updates. *)
Lemma classify_total pre p tot :
  classify NR NH rlabels hlabels M
    (tally NR NH M pre tot, listing NR NH M rlabels hlabels pre) p
  = Ok (tally NR NH M (pre ++ [p]) tot, listing NR NH M rlabels hlabels (pre ++ [p]))
  ∨ classify NR NH rlabels hlabels M
      (tally NR NH M pre tot, listing NR NH M rlabels hlabels pre) p
    = Raise IndexError.
Proof.
  destruct (classify NR NH rlabels hlabels M
              (tally NR NH M pre tot, listing NR NH M rlabels hlabels pre) p)
    as [st|e] eqn:Hstep.
  - left. f_equal. by eapply classify_sound.
  - right. f_equal. revert Hstep. destruct p as [r h].
    unfold classify, tally, listing, getitem2, getitem.
    destruct (decide (NR ≤ r)).
    { rewrite iadd_false_alarm. simpl.
      destruct (hlabels !! h); simpl; [|by intros [= <-]].
      by rewrite append_false_alarm. }
    destruct (decide (NH ≤ h)).
    { rewrite iadd_missed_detection. simpl.
      destruct (rlabels !! r); simpl; [|by intros [= <-]].
      by rewrite append_missed_detection. }
    destruct (M !! r) as [row|]; simpl; [|by intros [= <-]].
    destruct (row !! h) as [[]|]; simpl; [| |by intros [= <-]].
    + rewrite iadd_correct. simpl.
      destruct (rlabels !! r); simpl; [|by intros [= <-]].
      destruct (hlabels !! h); simpl; [|by intros [= <-]].
      by rewrite append_correct.
    + rewrite iadd_confusion. simpl.
      destruct (rlabels !! r); simpl; [|by intros [= <-]].
      destruct (hlabels !! h); simpl; [|by intros [= <-]].
      by rewrite append_confusion.
Qed.

Lemma classify_loop_total m pre tot :
  foldM (classify NR NH rlabels hlabels M)
    (tally NR NH M pre tot, listing NR NH M rlabels hlabels pre) m
  = Ok (tally NR NH M (pre ++ m) tot, listing NR NH M rlabels hlabels (pre ++ m))
  ∨ foldM (classify NR NH rlabels hlabels M)
      (tally NR NH M pre tot, listing NR NH M rlabels hlabels pre) m
    = Raise IndexError.
Proof.
  revert pre. induction m as [|p m IH]; intros pre.
  - left. simpl. by rewrite app_nil_r.
  - change (foldM (classify NR NH rlabels hlabels M)
              (tally NR NH M pre tot, listing NR NH M rlabels hlabels pre) (p :: m))
      with (classify NR NH rlabels hlabels M
              (tally NR NH M pre tot, listing NR NH M rlabels hlabels pre) p
            ≫= λ s', foldM (classify NR NH rlabels hlabels M) s' m).
    destruct (classify_total pre p tot) as [-> | ->]; [|by right]. simpl.
    destruct (IH (pre ++ [p])) as [-> | ->]; [left|by right].
    by rewrite <-app_assoc.
Qed.
End ClassifyTotal.

(** X16. On two lists and with any solver, also one that returns arbitrary
    index pairs, a call ends in one of three ways only: it returns counts
    and details, it raises the exception the solver raised, or it raises
    [IndexError] because the mapping points outside the padded range.  So
    the only exception the call raises by itself is [IndexError]: any other
    exception it raises, a [KeyError] or a [TypeError] included, is the one
    the solver raised on the cost matrix. *)
Theorem call_outcomes
    (self_match : label → label → bool)
    (compute : list (list Z) → result (list (nat * nat)))
    (rlabels hlabels : list label) :
  ((∃ counts details,
      __call__ self_match compute (of_list rlabels) (of_list hlabels)
      = Ok (counts, details))
   ∨ (∃ e, compute (one_minus (match_matrix self_match
                                 (length rlabels `max` length hlabels)
                                 rlabels hlabels)) = Raise e
         ∧ __call__ self_match compute (of_list rlabels) (of_list hlabels) = Raise e)
   ∨ (∃ mapping,
         compute (one_minus (match_matrix self_match
                               (length rlabels `max` length hlabels)
                               rlabels hlabels)) = Ok mapping
         ∧ ¬ Forall (λ p, p.1 < length rlabels `max` length hlabels
                          ∧ p.2 < length rlabels `max` length hlabels) mapping
         ∧ __call__ self_match compute (of_list rlabels) (of_list hlabels)
           = Raise IndexError))
  ∧ (∀ e, __call__ self_match compute (of_list rlabels) (of_list hlabels) = Raise e →
          e = IndexError
          ∨ compute (one_minus (match_matrix self_match
                                  (length rlabels `max` length hlabels)
                                  rlabels hlabels)) = Raise e)
  ∧ (∀ e, e ≠ IndexError →
          (∀ C, compute C ≠ Raise e) →
          __call__ self_match compute (of_list rlabels) (of_list hlabels) ≠ Raise e).
Proof.
  assert ((∃ counts details,
      __call__ self_match compute (of_list rlabels) (of_list hlabels)
      = Ok (counts, details))
   ∨ (∃ e, compute (one_minus (match_matrix self_match
                                 (length rlabels `max` length hlabels)
                                 rlabels hlabels)) = Raise e
         ∧ __call__ self_match compute (of_list rlabels) (of_list hlabels) = Raise e)
   ∨ (∃ mapping,
         compute (one_minus (match_matrix self_match
                               (length rlabels `max` length hlabels)
                               rlabels hlabels)) = Ok mapping
         ∧ ¬ Forall (λ p, p.1 < length rlabels `max` length hlabels
                          ∧ p.2 < length rlabels `max` length hlabels) mapping
         ∧ __call__ self_match compute (of_list rlabels) (of_list hlabels)
           = Raise IndexError)) as Hcases.
  { unfold __call__. simpl.
    set (NR := length rlabels). set (NH := length hlabels).
    case_decide as HN; [left; by eexists _, _|].
    rewrite fill_zeros by lia. simpl.
    set (M := match_matrix self_match (NR `max` NH) rlabels hlabels).
    destruct (compute (one_minus M)) as [m|e] eqn:Hm; simpl;
      [|right; left; by exists e].
    change (counts0, details0)
      with (tally NR NH M [] 0, listing NR NH M rlabels hlabels []).
    destruct (classify_loop_total NR NH rlabels hlabels M m [] 0) as [Hloop|Hloop].
    - left. rewrite Hloop. simpl. unfold tally. rewrite iadd_total. simpl.
      by eexists _, _.
    - right. right. exists m. split; [done|]. split; [|by rewrite Hloop].
      intros Hb.
      pose proof (classify_loop rlabels hlabels (NR `max` NH)
                    (match_at self_match rlabels hlabels) eq_refl m 0 Hb) as Hok.
      pose proof (eq_trans (eq_sym Hok) Hloop) as Habs. done. }
  assert (∀ e, __call__ self_match compute (of_list rlabels) (of_list hlabels)
               = Raise e →
            e = IndexError
            ∨ compute (one_minus (match_matrix self_match
                                    (length rlabels `max` length hlabels)
                                    rlabels hlabels)) = Raise e) as Hown.
  { intros e He.
    destruct Hcases as [(c & d & Hok)|[(e' & Hsolver & Hraise)|(m & _ & _ & Hraise)]].
    - congruence.
    - right. congruence.
    - left. congruence. }
  split; [exact Hcases|]. split; [exact Hown|].
  intros e Hne Hsolver He. destruct (Hown e He) as [->|Hc]; [done|].
  by eapply Hsolver.
Qed.

(** A solver that raises [KeyError] makes the call raise [KeyError]: the
    exception is the solver's, not the call's. *)
Example solver_key_error_passed_on :
  __call__ LabelMatcher.match_ (λ _, Raise KeyError)
    (of_list [Name "A"]) (of_list [Name "A"])
  = Raise KeyError.
Proof. reflexivity. Qed.

(** ** Writing outside the match matrix *)

Lemma foldM_app {S X} (f : S → X → result S) s l1 l2 :
  foldM f s (l1 ++ l2) = s' ← foldM f s l1; foldM f s' l2.
Proof.
  revert s. induction l1 as [|x l1 IH]; intros s; simpl.
  - by destruct (foldM f s l2).
  - destruct (f s x) as [s'|e]; simpl; [apply IH|done].
Qed.

Lemma enumerate_app_cons {X} (l1 : list X) x l2 :
  ∃ rest, enumerate (l1 ++ x :: l2) = enumerate l1 ++ (length l1, x) :: rest.
Proof.
  unfold enumerate. rewrite imap_app. simpl. rewrite Nat.add_0_r. by eexists.
Qed.

Section FillBounds.
Variable self_match : label → label → bool.

Lemma fill_row_too_long N f r rlabel hlabels :
  N < length hlabels →
  fill_row self_match r rlabel hlabels (mat N f) = Raise IndexError.
Proof.
  intros Hlen. unfold fill_row.
  rewrite <-(take_drop N hlabels).
  destruct (drop N hlabels) as [|y tl] eqn:Hdrop.
  { apply (f_equal length) in Hdrop. rewrite length_drop in Hdrop.
    simpl in Hdrop. lia. }
  destruct (enumerate_app_cons (take N hlabels) y tl) as [rest ->].
  rewrite foldM_app, length_take, Nat.min_l by lia.
  destruct (decide (r < N)) as [Hr|Hr].
  - pose proof (fill_row_mat self_match N f r rlabel (take N hlabels) Hr) as Hrow.
    unfold fill_row in Hrow. rewrite Hrow by (rewrite length_take; lia).
    simpl. unfold setitem2, getitem. rewrite mat_lookup by done. simpl.
    rewrite length_fmap, length_seq. by rewrite decide_False by lia.
  - destruct (foldM _ (mat N f) (enumerate (take N hlabels))) as [M'|e] eqn:Hpre.
    + simpl. unfold setitem2, getitem.
      assert (length M' = N) as HM'.
      { clear -Hpre. revert M' Hpre.
        induction (take N hlabels) as [|z l IH] using rev_ind; intros M' Hpre.
        - injection Hpre as <-. apply mat_square.
        - rewrite enumerate_snoc, foldM_snoc in Hpre.
          destruct (foldM _ (mat N f) (enumerate l)) as [M''|]; [|done].
          simpl in Hpre. unfold setitem2, getitem in Hpre.
          destruct (M'' !! r); [|done]. simpl in Hpre.
          case_decide; [|done]. injection Hpre as <-.
          rewrite length_insert. by apply IH. }
      rewrite (proj2 (lookup_ge_None M' r)) by lia. done.
    + simpl. f_equal. clear -Hpre Hr. revert Hpre.
      induction (take N hlabels) as [|z l IH] using rev_ind; [done|].
      rewrite enumerate_snoc, foldM_snoc.
      destruct (foldM _ (mat N f) (enumerate l)) as [M''|e'] eqn:Hl; simpl.
      * unfold setitem2, getitem.
        destruct (M'' !! r); simpl; [|by intros [= <-]].
        case_decide; [done|by intros [= <-]].
      * intros [= <-]. by apply IH.
Qed.

(** X17. The loops never write outside the N by N matrix: when a sequence
    holds more than N labels and the other sequence is not empty, filling
    the matrix raises [IndexError]. *)
Theorem fill_out_of_bounds (N : nat) (rlabels hlabels : list label) :
  (N < length rlabels ∧ hlabels ≠ [] ∧ length hlabels ≤ N)
  ∨ (N < length hlabels ∧ rlabels ≠ []) →
  fill self_match rlabels hlabels (zeros N) = Raise IndexError.
Proof.
  rewrite zeros_mat. intros [(Hr & Hh & HhN)|(Hh & Hr)]; unfold fill.
  - rewrite <-(take_drop N rlabels).
    destruct (drop N rlabels) as [|x tl] eqn:Hdrop.
    { apply (f_equal length) in Hdrop. rewrite length_drop in Hdrop.
      simpl in Hdrop. lia. }
    destruct (enumerate_app_cons (take N rlabels) x tl) as [rest ->].
    rewrite foldM_app, length_take, Nat.min_l by lia.
    pose proof (fill_mat self_match N (λ _ _, false) (take N rlabels) hlabels)
      as Hfill.
    unfold fill in Hfill. rewrite Hfill by (rewrite ?length_take; lia).
    simpl. destruct hlabels as [|y hlabels]; [done|].
    unfold fill_row. simpl. unfold setitem2, getitem.
    rewrite (proj2 (lookup_ge_None _ N))
      by (destruct (mat_square N (λ r h : nat,
            match take N rlabels !! r with
            | Some a => match (y :: hlabels) !! h with
                        | Some b => self_match a b
                        | None => false
                        end
            | None => false
            end)) as [-> _]; lia).
    done.
  - destruct rlabels as [|x rlabels]; [done|].
    change (enumerate (x :: rlabels)) with ((0, x) :: imap (pair ∘ S) rlabels).
    simpl. by rewrite fill_row_too_long.
Qed.
End FillBounds.

Lemma fill_out_of_bounds_witness :
  ((1 < length [Name "A"; Name "B"] ∧ [Name "A"] ≠ [] ∧ length [Name "A"] ≤ 1)
   ∨ (1 < length [Name "A"] ∧ [Name "A"; Name "B"] ≠ []))
  ∧ fill LabelMatcher.match_ [Name "A"; Name "B"] [Name "A"] (zeros 1)
    = Raise IndexError.
Proof.
  assert (1 < length [Name "A"; Name "B"] ∧ [Name "A"] ≠ []
          ∧ length [Name "A"] ≤ 1) as H by (simpl; repeat split; (lia || done)).
  split; [by left|].
  apply (fill_out_of_bounds LabelMatcher.match_ 1 [Name "A"; Name "B"] [Name "A"]).
  by left.
Defined.
